(** * devkit [file dedupe]: duplicate detection and removal

    A shallow embedding of [runDedupe] and [calculateFileHash] (package
    [file], dedupe command) together with the parts of the Go runtime they
    call: [crypto/sha256], [fmt.Sprintf "%x"], [path/filepath.Walk],
    [os.Open], [os.Remove] and the iteration order of a Go map. *)

From Stdlib Require Import ZArith Lia.
From Stdlib.Strings Require Import Ascii String Byte.
From stdpp Require Import gmap strings list fin_maps pretty.

Set Warnings "-register-all".
Local Open Scope Z_scope.

(** The line feed that ends a printed line. *)
Definition LF : string := String (ascii_of_nat 10) EmptyString.

(** ** SHA-256 ([crypto/sha256], FIPS 180-4)

    Words are 32-bit unsigned integers, modelled in [Z] with the wrap-around
    written out. *)
Module SHA256.

Definition w32 (x : Z) : Z := x mod 2 ^ 32.
Definition add32 (x y : Z) : Z := w32 (x + y).
Definition rotr (n x : Z) : Z :=
  w32 (Z.lor (Z.shiftr x n) (Z.shiftl x (32 - n))).
Definition shr (n x : Z) : Z := Z.shiftr x n.
Definition not32 (x : Z) : Z := Z.lxor x 4294967295.

Definition Ch (x y z : Z) : Z := Z.lxor (Z.land x y) (Z.land (not32 x) z).
Definition Maj (x y z : Z) : Z :=
  Z.lxor (Z.lxor (Z.land x y) (Z.land x z)) (Z.land y z).
Definition bsig0 (x : Z) : Z := Z.lxor (Z.lxor (rotr 2 x) (rotr 13 x)) (rotr 22 x).
Definition bsig1 (x : Z) : Z := Z.lxor (Z.lxor (rotr 6 x) (rotr 11 x)) (rotr 25 x).
Definition ssig0 (x : Z) : Z := Z.lxor (Z.lxor (rotr 7 x) (rotr 18 x)) (shr 3 x).
Definition ssig1 (x : Z) : Z := Z.lxor (Z.lxor (rotr 17 x) (rotr 19 x)) (shr 10 x).

(** The constants are defined the way the standard defines them: the first
    32 bits of the fractional parts of the cube roots (for [K]) and of the
    square roots (for [init]) of the first primes. *)
Definition is_prime (n : Z) : bool :=
  forallb (fun d => negb (n mod Z.of_nat d =? 0)) (seq 2 (Z.to_nat n - 2)).

Definition primes (bound : nat) : list Z :=
  filter (fun n => is_prime n = true) (map Z.of_nat (seq 2 bound)).

(** The integer cube root, one bit at a time from bit [bits - 1] down. *)
Fixpoint cube_root (bits : nat) (r n : Z) : Z :=
  match bits with
  | O => r
  | S b =>
      let r' := r + 2 ^ Z.of_nat b in
      cube_root b (if r' * r' * r' <=? n then r' else r) n
  end.

Definition frac_cbrt (p : Z) : Z := w32 (cube_root 40 0 (p * 2 ^ 96)).
Definition frac_sqrt (p : Z) : Z := w32 (Z.sqrt (p * 2 ^ 64)).

Definition K : list Z := Eval vm_compute in map frac_cbrt (primes 310).

(** The eight chaining words. *)
Record digest := Digest {
  h0 : Z; h1 : Z; h2 : Z; h3 : Z; h4 : Z; h5 : Z; h6 : Z; h7 : Z }.

Definition of_words (ws : list Z) : digest :=
  Digest (nth 0 ws 0) (nth 1 ws 0) (nth 2 ws 0) (nth 3 ws 0)
         (nth 4 ws 0) (nth 5 ws 0) (nth 6 ws 0) (nth 7 ws 0).

Definition init : digest :=
  Eval vm_compute in of_words (map frac_sqrt (primes 18)).

Definition byteZ (b : byte) : Z := Z.of_N (Byte.to_N b).

(** Padding: a 1 bit, zeros up to 56 mod 64, then the bit length on 64 bits,
    big endian. *)
Definition be_bytes (n : nat) (x : Z) : list Z :=
  map (fun i => Z.land (Z.shiftr x (8 * Z.of_nat i)) 255) (rev (seq 0 n)).

Definition pad (msg : list byte) : list Z :=
  let len := Z.of_nat (length msg) in
  let zeros := Z.to_nat ((55 - len) mod 64) in
  map byteZ msg ++ [128] ++ repeat 0 zeros ++ be_bytes 8 (8 * len).

Definition be_word (b3 b2 b1 b0 : Z) : Z :=
  Z.lor (Z.lor (Z.lor (Z.shiftl b3 24) (Z.shiftl b2 16)) (Z.shiftl b1 8)) b0.

Fixpoint words (bs : list Z) : list Z :=
  match bs with
  | b3 :: b2 :: b1 :: b0 :: rest => be_word b3 b2 b1 b0 :: words rest
  | _ => []
  end.

(** The message schedule, most recent word first. *)
Fixpoint schedule (n : nat) (rw : list Z) : list Z :=
  match n with
  | O => rw
  | S n' =>
      let w := add32 (add32 (ssig1 (nth 1 rw 0)) (nth 6 rw 0))
                     (add32 (ssig0 (nth 14 rw 0)) (nth 15 rw 0)) in
      schedule n' (w :: rw)
  end.

Definition round (s : digest) (kw : Z * Z) : digest :=
  let '(Digest a b c d e f g h) := s in
  let t1 := add32 (add32 (add32 h (bsig1 e)) (add32 (Ch e f g) (fst kw))) (snd kw) in
  let t2 := add32 (bsig0 a) (Maj a b c) in
  Digest (add32 t1 t2) a b c (add32 d t1) e f g.

Definition block (s : digest) (ws : list Z) : digest :=
  let w := rev (schedule 48 (rev ws)) in
  let '(Digest a b c d e f g h) := fold_left round (combine K w) s in
  Digest (add32 (h0 s) a) (add32 (h1 s) b) (add32 (h2 s) c) (add32 (h3 s) d)
         (add32 (h4 s) e) (add32 (h5 s) f) (add32 (h6 s) g) (add32 (h7 s) h).

Fixpoint blocks (n : nat) (s : digest) (ws : list Z) : digest :=
  match n with
  | O => s
  | S n' => blocks n' (block s (firstn 16 ws)) (skipn 16 ws)
  end.

(** [hash.Sum(nil)] after the whole message was written: 32 bytes. *)
Definition sum (msg : list byte) : list Z :=
  let ws := words (pad msg) in
  let '(Digest a b c d e f g h) := blocks (length ws / 16) init ws in
  be_bytes 4 a ++ be_bytes 4 b ++ be_bytes 4 c ++ be_bytes 4 d ++
  be_bytes 4 e ++ be_bytes 4 f ++ be_bytes 4 g ++ be_bytes 4 h.

End SHA256.

(** ** [fmt.Sprintf "%x"] on a byte slice: two lowercase digits per byte *)

Definition hexdigit (d : Z) : ascii :=
  nth (Z.to_nat d) (list_ascii_of_string "0123456789abcdef") "0"%char.

Fixpoint hex (bs : list Z) : string :=
  match bs with
  | [] => EmptyString
  | b :: rest => String (hexdigit (b / 16)) (String (hexdigit (b mod 16)) (hex rest))
  end.

Definition is_lower_hex (c : ascii) : bool :=
  bool_decide (c ∈ list_ascii_of_string "0123456789abcdef").

Definition bytes_of (s : string) : list byte := list_byte_of_string s.


(** ** The file system

    A tree of directory entries mounted at a path.  Every failure the
    operating system can report to the command is part of the tree: an
    entry whose [lstat] fails, a directory that cannot be listed, a file
    that cannot be opened, read or removed. *)

Inductive errno := ENOENT | EACCES | EIO | EISDIR | ENOTEMPTY | EBUSY.

Definition errno_text (e : errno) : string :=
  match e with
  | ENOENT => "no such file or directory"
  | EACCES => "permission denied"
  | EIO => "input/output error"
  | EISDIR => "is a directory"
  | ENOTEMPTY => "directory not empty"
  | EBUSY => "device or resource busy"
  end.

(** The text of an [os.PathError]. *)
Definition PathError (op path : string) (e : errno) : string :=
  op +:+ " " +:+ path +:+ ": " +:+ errno_text e.

Record file := {
  content : list byte;
  open_err : option errno;
  read_err : option errno;
  remove_err : option errno }.

Inductive node :=
| File (f : file)
| Dir (list_err : option errno) (entries : list (string * node))
| Broken (e : errno).

Record FileInfo := { Name : string; IsDir : bool }.

(** The part of the file system a run can reach: the tree found at the
    path [mount]; every other path resolves to nothing.  The entries of a
    directory are in the order [readDirNames] returns them (sorted). *)
Record world := { mount : string; tree : node }.

Definition ends_with_slash (s : string) : bool :=
  match rev (list_ascii_of_string s) with
  | c :: _ => Ascii.eqb c "/"
  | [] => false
  end.

(** [filepath.Join dir name] for a cleaned [dir] and a plain entry name:
    the walker spells the children of "." without a prefix and never
    doubles a separator. *)
Definition Join (dir name : string) : string :=
  if String.eqb dir "." then name
  else if ends_with_slash dir then dir +:+ name
  else dir +:+ "/" +:+ name.

(** [basename] of package [os], which names the [FileInfo] of [os.Lstat]:
    trailing separators dropped, then everything up to the last separator. *)
Fixpoint drop_slashes (rs : list ascii) : list ascii :=
  match rs with
  | c :: (_ :: _) as rest => if Ascii.eqb c "/" then drop_slashes rest else rs
  | _ => rs
  end.

Fixpoint until_slash (rs : list ascii) : list ascii :=
  match rs with
  | [] => []
  | c :: rest => if Ascii.eqb c "/" then [] else c :: until_slash rest
  end.

Definition basename (name : string) : string :=
  string_of_list_ascii
    (rev (until_slash (drop_slashes (rev (list_ascii_of_string name))))).

(** Every entry of a tree with the path the walker gives it, parents first. *)
Fixpoint entries_of (path : string) (n : node) : list (string * node) :=
  (path, n) ::
  match n with
  | Dir _ es => flat_map (fun e => entries_of (Join path e.1) e.2) es
  | _ => []
  end.

Fixpoint assoc {A} (p : string) (l : list (string * A)) : option A :=
  match l with
  | [] => None
  | (q, a) :: l' => if String.eqb q p then Some a else assoc p l'
  end.

(** Path resolution: the entry the kernel finds at [p]. *)
Definition resolve (w : world) (p : string) : option node :=
  assoc p (entries_of (mount w) (tree w)).

Definition is_dir (n : node) : bool :=
  match n with Dir _ _ => true | _ => false end.

(** [os.Lstat] *)
Definition stat_node (name : string) (n : node) : FileInfo + errno :=
  match n with
  | Broken e => inr e
  | _ => inl {| Name := name; IsDir := is_dir n |}
  end.

(** [os.Open]; a directory opens, and its first read fails. *)
Definition os_Open (w : world) (p : string) : file + errno :=
  match resolve w p with
  | None => inr ENOENT
  | Some (Broken e) => inr e
  | Some (Dir _ _) => inl {| content := []; open_err := None;
                             read_err := Some EISDIR; remove_err := None |}
  | Some (File f) =>
      match open_err f with Some e => inr e | None => inl f end
  end.

(** Reading to the end, as [io.Copy] does. *)
Definition read_all (f : file) : list byte + errno :=
  match read_err f with Some e => inr e | None => inl (content f) end.

(** Dropping the entry at [target] from a tree. *)
Fixpoint unlink (target path : string) (n : node) : node :=
  match n with
  | Dir le es =>
      Dir le
        (flat_map
           (fun e =>
              if String.eqb (Join path e.1) target then []
              else [(e.1, unlink target (Join path e.1) e.2)]) es)
  | _ => n
  end.

Definition unlink_world (w : world) (target : string) : world :=
  {| mount := mount w;
     tree := if String.eqb (mount w) target then Broken ENOENT
             else unlink target (mount w) (tree w) |}.

(** [os.Remove]: a file, or an empty directory. *)
Definition os_Remove (w : world) (p : string) : option errno * world :=
  match resolve w p with
  | None => (Some ENOENT, w)
  | Some (Broken e) => (Some e, w)
  | Some (File f) =>
      match remove_err f with
      | Some e => (Some e, w)
      | None => (None, unlink_world w p)
      end
  | Some (Dir _ []) => (None, unlink_world w p)
  | Some (Dir _ (_ :: _)) => (Some ENOTEMPTY, w)
  end.

(** ** [filepath.Walk] *)

(** What a [WalkFunc] returns: nil, [filepath.SkipDir] or another error
    (the callback of [runDedupe] never returns [filepath.SkipAll]). *)
Inductive walkret := WNil | WSkipDir | WErr (msg : string).

(** What the walker hands to its callback beside the path: [info] is nil
    only together with a non-nil [err]. *)
Inductive walkarg :=
| Stat (info : FileInfo) (err : option errno)
| NoStat (err : errno).

Definition WalkFunc (S : Type) : Type := string -> walkarg -> S -> walkret * S.

Section Walk.
Context {S : Type} (walkFn : WalkFunc S).

(** The loop of [walk] over the names of a directory. *)
Definition walk_names (walk : string -> FileInfo -> node -> S -> walkret * S)
    (path : string) : list (string * node) -> S -> walkret * S :=
  fix names (es : list (string * node)) (st : S) : walkret * S :=
    match es with
    | [] => (WNil, st)
    | e :: es' =>
        let filename := Join path e.1 in
        match stat_node e.1 e.2 with
        | inr err =>
            let '(r, st) := walkFn filename (NoStat err) st in
            match r with
            | WErr _ => (r, st)
            | _ => names es' st
            end
        | inl fileInfo =>
            let '(r, st) := walk filename fileInfo e.2 st in
            match r with
            | WNil => names es' st
            | WSkipDir => if IsDir fileInfo then names es' st else (r, st)
            | WErr _ => (r, st)
            end
        end
    end.

Fixpoint walk (path : string) (info : FileInfo) (n : node) (st : S)
  : walkret * S :=
  match n with
  | Dir list_err es =>
      let '(err1, st) := walkFn path (Stat info list_err) st in
      match list_err, err1 with
      | None, WNil => walk_names walk path es st
      | _, _ => (err1, st)
      end
  | _ => walkFn path (Stat info None) st
  end.

Definition Walk (w : world) (root : string) (st : S) : option string * S :=
  let '(r, st) :=
    match resolve w root with
    | None => walkFn root (NoStat ENOENT) st
    | Some n =>
        match stat_node (basename root) n with
        | inr err => walkFn root (NoStat err) st
        | inl info => walk root info n st
        end
    end in
  (match r with WErr msg => Some msg | _ => None end, st).
End Walk.

(** ** Go maps: [range] visits the keys in an order the runtime chooses

    The choice is an explicit input: at each step the next number of the
    sequence picks one of the keys that are left. *)

Fixpoint pick_order {A} (n : nat) (choice : list nat) (l : list A) : list A :=
  match n, l with
  | S n', d :: _ =>
      let i := (hd 0 choice mod length l)%nat in
      nth i l d :: pick_order n' (tl choice) (delete i l)
  | _, _ => []
  end.

Definition range_map {V} (choice : list nat) (m : gmap string V)
  : list (string * V) :=
  pick_order (length (map_to_list m)) choice (map_to_list m).

(** ** Values of type [interface{}] that the command builds *)

Inductive value :=
| VString (s : string)
| VInt (n : Z)
| VBool (b : bool)
| VStrings (l : list string)
| VMaps (l : list (gmap string value)).

(** [output.Result] *)
Record Result := {
  Success : bool;
  Data : option (gmap string value);
  Error : string }.

(** What a run does to the outside, in order. *)
Inductive event :=
| Stdout (text : string)
| EncodeJSON (r : Result)
| PrintPlain (r : Result)
| Remove (path : string) (err : option errno).

(** [output.Print], [output.PrintSuccess] *)
Definition output_Print (format : string) (result : Result) : list event :=
  if String.eqb format "json" then [EncodeJSON result]
  else [PrintPlain result].

Definition output_PrintSuccess (format : string) (data : gmap string value)
  : list event :=
  output_Print format {| Success := true; Data := Some data; Error := "" |}.

(** ** The command *)

Record flags := {
  by_ : string;
  action : string;
  dryRun : bool;
  recursive : bool;
  outputFormat : string }.

(** The defaults that [init] registers. *)
Definition default_flags : flags :=
  {| by_ := "hash"; action := "list"; dryRun := false; recursive := false;
     outputFormat := "plain" |}.

Definition calculateFileHash (w : world) (filename : string) : string + errno :=
  match os_Open w filename with
  | inr err => inr err
  | inl file =>
      match read_all file with
      | inr err => inr err
      | inl data => inl (hex (SHA256.sum data))
      end
  end.

(** [fileMap[key] = append(fileMap[key], path)] *)
Definition append_at (key path : string) (fileMap : gmap string (list string))
  : gmap string (list string) :=
  <[key := default [] (fileMap !! key) ++ [path]]> fileMap.

(** The function literal handed to [filepath.Walk]. *)
Definition walkFn (w : world) (by_ : string) (recursive : bool)
    (searchPath : string) : WalkFunc (gmap string (list string)) :=
  fun path arg fileMap =>
    match arg with
    | NoStat _ => (WNil, fileMap)
    | Stat _ (Some _) => (WNil, fileMap)
    | Stat info None =>
        if IsDir info then
          if negb recursive && negb (String.eqb path searchPath)
          then (WSkipDir, fileMap)
          else (WNil, fileMap)
        else if String.eqb by_ "hash" then
          match calculateFileHash w path with
          | inr _ => (WNil, fileMap)
          | inl hash => (WNil, append_at hash path fileMap)
          end
        else (WNil, append_at (Name info) path fileMap)
    end.

(** The walk of [runDedupe]: the error of [filepath.Walk] and [fileMap]. *)
Definition scan (w : world) (fl : flags) (searchPath : string)
  : option string * gmap string (list string) :=
  Walk (walkFn w (by_ fl) (recursive fl) searchPath) w searchPath ∅.

(** One element of [duplicates]. *)
Definition duplicate_entry (key : string) (files : list string)
  : gmap string value :=
  {[ "key" := VString key;
     "keep" := VString (hd "" files);
     "duplicates" := VStrings (tl files);
     "count" := VInt (Z.of_nat (length (tl files))) ]}.

(** The loop over [fileMap]: [duplicates] and [toDelete]. *)
Fixpoint collect (action : string) (kfs : list (string * list string))
    (duplicates : list (gmap string value)) (toDelete : list string)
  : list (gmap string value) * list string :=
  match kfs with
  | [] => (duplicates, toDelete)
  | (key, files) :: rest =>
      if (1 <? length files)%nat then
        collect action rest
          (duplicates ++ [duplicate_entry key files])
          (if String.eqb action "delete" then toDelete ++ tl files
           else toDelete)
      else collect action rest duplicates toDelete
  end.

(** [dup["key"]] and [dup["keep"]] under [%s];
    [dup["duplicates"].([]string)] *)
Definition fmt_s (v : option value) : string :=
  match v with
  | Some (VString s) => s
  | _ => "%!s(<nil>)"
  end.

Definition as_strings (v : option value) : list string :=
  match v with
  | Some (VStrings l) => l
  | _ => []
  end.

Definition print_group (dup : gmap string value) : list event :=
  [ Stdout (LF +:+ "Duplicate group (key: " +:+ fmt_s (dup !! "key") +:+ "):" +:+ LF);
    Stdout ("  Keep: " +:+ fmt_s (dup !! "keep") +:+ LF) ] ++
  map (fun file => Stdout ("  Duplicate: " +:+ file +:+ LF))
      (as_strings (dup !! "duplicates")).

(** The loop over [toDelete]. *)
Fixpoint delete_loop (dryRun : bool) (toDelete : list string) (w : world)
  : list event * world :=
  match toDelete with
  | [] => ([], w)
  | file :: rest =>
      if negb dryRun then
        let '(err, w1) := os_Remove w file in
        let line :=
          match err with
          | Some e => "  Failed to delete " +:+ file +:+ ": " +:+
                      PathError "remove" file e +:+ LF
          | None => "  Deleted: " +:+ file +:+ LF
          end in
        let '(evs, w2) := delete_loop dryRun rest w1 in
        (Remove file err :: Stdout line :: evs, w2)
      else
        let '(evs, w2) := delete_loop dryRun rest w in
        (Stdout ("  Would delete: " +:+ file +:+ LF) :: evs, w2)
  end.

(** The report handed to [output.PrintSuccess]. *)
Definition report (fl : flags) (searchPath : string)
    (duplicates : list (gmap string value)) (toDelete : list string)
  : gmap string value :=
  {[ "path" := VString searchPath;
     "method" := VString (by_ fl);
     "duplicates" := VMaps duplicates;
     "count" := VInt (Z.of_nat (length duplicates));
     "to_delete" := VInt (Z.of_nat (length toDelete));
     "dry_run" := VBool (dryRun fl) ]}.

(** The deletion block of the plain branch. *)
Definition removal_phase (fl : flags) (toDelete : list string) (w : world)
  : list event * world :=
  if String.eqb (action fl) "delete" && (0 <? length toDelete)%nat then
    let '(evs, w') := delete_loop (dryRun fl) toDelete w in
    (Stdout (if dryRun fl then LF +:+ "DRY RUN - Would delete:" +:+ LF
             else LF +:+ "Deleting duplicates:" +:+ LF) :: evs, w')
  else ([], w).

Definition found_line (duplicates : list (gmap string value)) : event :=
  Stdout (LF +:+ "Found " +:+ pretty (length duplicates) +:+
          " duplicate groups" +:+ LF).

(** [args[0]], or "." when no path is given. *)
Definition search_path (args : list string) : string :=
  match args with a :: _ => a | [] => "." end.

Record run := {
  run_err : option string;
  run_events : list event;
  run_world : world }.

Definition runDedupe (choice : list nat) (fl : flags) (args : list string)
    (w : world) : run :=
  let searchPath := search_path args in
  let '(err, fileMap) := scan w fl searchPath in
  match err with
  | Some msg =>
      {| run_err := Some ("dedupe error: " +:+ msg);
         run_events := []; run_world := w |}
  | None =>
      let '(duplicates, toDelete) :=
        collect (action fl) (range_map choice fileMap) [] [] in
      if String.eqb (outputFormat fl) "json" then
        {| run_err := None;
           run_events :=
             output_PrintSuccess (outputFormat fl)
               (report fl searchPath duplicates toDelete);
           run_world := w |}
      else
        let groups := flat_map print_group duplicates in
        let '(removal, w') := removal_phase fl toDelete w in
        {| run_err := None;
           run_events := groups ++ removal ++ [found_line duplicates];
           run_world := w' |}
  end.

(** ** Notions of the statements *)

(** The groups and the paths to delete that a run builds from [fileMap]:
    the variables [duplicates] and [toDelete]. *)
Definition plan (choice : list nat) (fl : flags) (searchPath : string)
    (w : world) : list (gmap string value) * list string :=
  collect (action fl) (range_map choice (scan w fl searchPath).2) [] [].

(** The [os.Remove] calls of a run, with their results. *)
Definition removals (evs : list event) : list (string * option errno) :=
  flat_map (fun ev => match ev with Remove p r => [(p, r)] | _ => [] end) evs.

(** The [os.Remove] calls of the loop when it is not a dry run: one per
    path, in order, each on the world the earlier ones left. *)
Fixpoint attempts (toDelete : list string) (w : world)
  : list (string * option errno) * world :=
  match toDelete with
  | [] => ([], w)
  | file :: rest =>
      let '(err, w1) := os_Remove w file in
      let '(outs, w2) := attempts rest w1 in
      ((file, err) :: outs, w2)
  end.

Definition with_by (fl : flags) (b : string) : flags :=
  {| by_ := b; action := action fl; dryRun := dryRun fl;
     recursive := recursive fl; outputFormat := outputFormat fl |}.

(** *** The pass as a function of the tree

    What the walk of [runDedupe] leaves in [fileMap], stated without the
    walker: the (key, path) pairs in discovery order. *)

Definition key_of (w : world) (by_ : string) (path name : string)
  : option string :=
  if String.eqb by_ "hash" then
    match calculateFileHash w path with
    | inl hash => Some hash
    | inr _ => None
    end
  else Some name.

Fixpoint visit (w : world) (by_ : string) (recursive : bool)
    (searchPath path name : string) (n : node) : list (string * string) :=
  match n with
  | File _ =>
      match key_of w by_ path name with
      | Some key => [(key, path)]
      | None => []
      end
  | Dir None es =>
      if negb recursive && negb (String.eqb path searchPath) then []
      else flat_map
             (fun e => visit w by_ recursive searchPath (Join path e.1) e.1 e.2)
             es
  | _ => []
  end.

Definition candidates (w : world) (fl : flags) (searchPath : string)
  : list (string * string) :=
  match resolve w searchPath with
  | Some n =>
      visit w (by_ fl) (recursive fl) searchPath searchPath
            (basename searchPath) n
  | None => []
  end.

(** What [walk] returns under the callback of [runDedupe]: a directory
    other than the root asks to be skipped when the walk is not recursive. *)
Definition walk_result (recursive : bool) (searchPath path : string)
    (n : node) : walkret :=
  match n with
  | Dir None _ =>
      if negb recursive && negb (String.eqb path searchPath) then WSkipDir
      else WNil
  | _ => WNil
  end.

Definition add_all (cs : list (string * string)) (m : gmap string (list string))
  : gmap string (list string) :=
  fold_left (fun m kp => append_at kp.1 kp.2 m) cs m.

Definition group_files (cs : list (string * string))
  : gmap string (list string) :=
  add_all cs ∅.

(** The paths found under a key, in discovery order. *)
Definition paths_with (key : string) (cs : list (string * string))
  : list string :=
  map snd (filter (fun kp => kp.1 = key) cs).

(** The keys of [fileMap] that make a group, in the order of the loop. *)
Definition group_list (choice : list nat) (cs : list (string * string))
  : list (string * list string) :=
  filter (fun kf => (1 < length kf.2)%nat) (range_map choice (group_files cs)).

(** An entry the pass cannot use: its [lstat] fails, the directory cannot
    be listed, or the file cannot be hashed under the hash strategy. *)
Definition entry_fails (w : world) (by_ : string) (path : string) (c : node)
  : bool :=
  match c with
  | Broken _ => true
  | Dir (Some _) _ => true
  | Dir None _ => false
  | File _ =>
      String.eqb by_ "hash" &&
      match calculateFileHash w path with inr _ => true | inl _ => false end
  end.

(** *** Trees that a file system can hold *)

(** Entry names as a directory listing gives them: not empty, no separator. *)
Definition plain_name (name : string) : bool :=
  negb (String.eqb name "") &&
  forallb (fun c => negb (Ascii.eqb c "/")) (list_ascii_of_string name).

Fixpoint plain_names (n : node) : bool :=
  match n with
  | Dir _ es => forallb (fun e => plain_name e.1 && plain_names e.2) es
  | _ => true
  end.

(** What every directory listing guarantees: names that are plain, are not
    "." and differ from one another. *)
Fixpoint listing_ok (n : node) : bool :=
  match n with
  | Dir _ es =>
      bool_decide (NoDup es.*1) &&
      forallb (fun e => plain_name e.1 && negb (String.eqb e.1 ".") &&
                        listing_ok e.2) es
  | _ => true
  end.

(** A path names one entry. *)
Definition wf_world (w : world) : Prop :=
  NoDup (map fst (entries_of (mount w) (tree w))).

(** The prefix that [Join] puts before the name. *)
Definition join_prefix (dir : string) : string :=
  if String.eqb dir "." then ""
  else if ends_with_slash dir then dir
  else dir +:+ "/".

(** [q] is [c] or lies below it. *)
Definition under (c q : string) : Prop :=
  exists s, q = c +:+ s /\ (s = "" \/ exists rest, s = "/" +:+ rest).

(** An entry with nothing below it. *)
Definition is_leaf (n : node) : bool :=
  match n with Dir _ (_ :: _) => false | _ => true end.

(** Induction on trees, with the hypothesis for every entry of a
    directory. *)
Section NodeInd.
Variable P : node -> Prop.
Hypothesis HFile : forall f, P (File f).
Hypothesis HDir : forall le es, Forall (fun e => P e.2) es -> P (Dir le es).
Hypothesis HBroken : forall e, P (Broken e).

Fixpoint node_ind' (n : node) : P n :=
  match n with
  | File f => HFile f
  | Dir le es =>
      HDir le es
        ((fix all (es : list (string * node)) : Forall (fun e => P e.2) es :=
            match es with
            | [] => @List.Forall_nil _ (fun e => P e.2)
            | e :: es' =>
                @List.Forall_cons _ (fun e => P e.2) e es'
                  (node_ind' e.2) (all es')
            end) es)
  | Broken e => HBroken e
  end.
End NodeInd.

(** ** Further notions of the statements *)

(** The member paths of an element of [duplicates]: the kept file, then
    the duplicates. *)
Definition members (d : gmap string value) : list string :=
  fmt_s (d !! "keep") :: as_strings (d !! "duplicates").

(** What an entry of the search directory gives to the pass when the walk
    is not recursive. *)
Definition direct_file (w : world) (by_ searchPath : string)
    (e : string * node) : list (string * string) :=
  match e.2 with
  | File _ =>
      match key_of w by_ (Join searchPath e.1) e.1 with
      | Some key => [(key, Join searchPath e.1)]
      | None => []
      end
  | _ => []
  end.

Definition is_file (n : node) : bool :=
  match n with File _ => true | _ => false end.

(** The paths of the regular files of a tree, parents first. *)
Definition file_paths (path : string) (n : node) : list string :=
  (filter (fun pn : string * node => is_file pn.2 = true)
     (entries_of path n)).*1.

(** Every directory of the tree can be listed. *)
Fixpoint listable (n : node) : bool :=
  match n with
  | Dir None es => forallb (fun e => listable e.2) es
  | Dir (Some _) _ => false
  | _ => true
  end.

Definition with_action (fl : flags) (a : string) : flags :=
  {| by_ := by_ fl; action := a; dryRun := dryRun fl;
     recursive := recursive fl; outputFormat := outputFormat fl |}.

(** The line that the deletion loop prints after an [os.Remove]. *)
Definition outcome_line (file : string) (err : option errno) : string :=
  match err with
  | Some e => "  Failed to delete " +:+ file +:+ ": " +:+
              PathError "remove" file e +:+ LF
  | None => "  Deleted: " +:+ file +:+ LF
  end.

(** The integer under a field of a map, 0 when there is none. *)
Definition int_field (d : gmap string value) (k : string) : Z :=
  match d !! k with Some (VInt n) => n | _ => 0 end.

(** ** Sample trees *)

Definition plain_file (s : string) : node :=
  File {| content := bytes_of s; open_err := None; read_err := None;
          remove_err := None |}.

(** A file that [os.Remove] refuses. *)
Definition locked_file (s : string) : node :=
  File {| content := bytes_of s; open_err := None; read_err := None;
          remove_err := Some EACCES |}.

(** A file that [os.Open] refuses. *)
Definition unreadable_file (s : string) : node :=
  File {| content := bytes_of s; open_err := Some EACCES; read_err := None;
          remove_err := None |}.

(** [a.txt] and [b.txt] hold "X", [c.txt] holds "Y". *)
Definition sample : world :=
  {| mount := "d";
     tree := Dir None [("a.txt", plain_file "X"); ("b.txt", plain_file "X");
                       ("c.txt", plain_file "Y")] |}.

(** Three files with the content "X", the second of which cannot be
    removed; an entry whose [lstat] fails; two directories with an
    [img.jpg] each; a directory that cannot be listed. *)
Definition sample_deep : world :=
  {| mount := "d";
     tree := Dir None
       [("a.txt", plain_file "X");
        ("b.txt", locked_file "X");
        ("bad", Broken EACCES);
        ("c.txt", plain_file "X");
        ("dir1", Dir None [("img.jpg", plain_file "1");
                           ("u", unreadable_file "X")]);
        ("dir2", Dir None [("img.jpg", plain_file "2")]);
        ("dir3", Dir (Some EACCES) [("img.jpg", plain_file "3")])] |}.

(** [--by hash --action delete --recursive --output format] *)
Definition apply_flags (format : string) : flags :=
  {| by_ := "hash"; action := "delete"; dryRun := false; recursive := true;
     outputFormat := format |}.

(** * Package [errors] *)

Module Errors.

(** A non-nil Go [error]: a [*DevKitError], or an error of another package
    with the text its [Error()] returns.  The nil error is [None]. *)
Inductive error :=
| Other (text : string)
| DevKit (e : DevKitError)
with DevKitError :=
| MkDevKitError (Code Message : string) (Err : option error).

Definition Code (e : DevKitError) : string :=
  match e with MkDevKitError code _ _ => code end.

Definition Message (e : DevKitError) : string :=
  match e with MkDevKitError _ message _ => message end.

Definition Err (e : DevKitError) : option error :=
  match e with MkDevKitError _ _ err => err end.

(** [Error]: the method of [*DevKitError], and through [%v] the text of the
    error it wraps. *)
Fixpoint error_text (e : error) : string :=
  match e with
  | Other text => text
  | DevKit (MkDevKitError _ message (Some err)) =>
      message +:+ ": " +:+ error_text err
  | DevKit (MkDevKitError _ message None) => message
  end.

Definition Error (e : DevKitError) : string := error_text (DevKit e).

Definition Unwrap (e : DevKitError) : option error := Err e.

Definition New (code message : string) : DevKitError :=
  MkDevKitError code message None.

Definition Wrap (err : option error) (code message : string) : DevKitError :=
  MkDevKitError code message err.

(** [Wrap] applied once per layer, the last layer innermost. *)
Fixpoint wrap_all (layers : list (string * string)) (cause : option error)
  : option error :=
  match layers with
  | [] => cause
  | (code, message) :: rest =>
      Some (DevKit (Wrap (wrap_all rest cause) code message))
  end.

(** [Unwrap] applied [n] times; an error of another package has nothing
    to unwrap here. *)
Fixpoint unwrap_n (n : nat) (e : option error) : option error :=
  match n, e with
  | O, _ => e
  | S n', Some (DevKit d) => unwrap_n n' (Unwrap d)
  | S _, _ => None
  end.

(** [strings.Join texts ": "] *)
Fixpoint join_colon (texts : list string) : string :=
  match texts with
  | [] => ""
  | [t] => t
  | t :: rest => t +:+ ": " +:+ join_colon rest
  end.

End Errors.

(** * Properties *)

(** ** Test vectors of SHA-256 *)

Example sha256_abc :
  hex (SHA256.sum (bytes_of "abc")) =
  "ba7816bf8f01cfea414140de5dae2223b00361a396177a9cb410ff61f20015ad"%string.
Proof. vm_compute. reflexivity. Qed.

Example sha256_empty :
  hex (SHA256.sum []) =
  "e3b0c44298fc1c149afbf4c8996fb92427ae41e4649b934ca495991b7852b855"%string.
Proof. vm_compute. reflexivity. Qed.

Example sha256_two_blocks :
  hex (SHA256.sum
         (bytes_of "abcdbcdecdefdefgefghfghighijhijkijkljklmklmnlmnomnopnopq")) =
  "248d6a61d20638b8e5c026930c3e6039a33ce45964ff2167f6ecedd419db06c1"%string.
Proof. vm_compute. reflexivity. Qed.


(** ** The walker computes the pass *)

Lemma add_all_app cs1 cs2 m :
  add_all (cs1 ++ cs2) m = add_all cs2 (add_all cs1 m).
Proof. apply fold_left_app. Qed.

Lemma walk_visit w by_ recursive searchPath n : forall path name info m,
  stat_node name n = inl info ->
  walk (walkFn w by_ recursive searchPath) path info n m =
    (walk_result recursive searchPath path n,
     add_all (visit w by_ recursive searchPath path name n) m).
Proof.
  induction n as [f|le es IH|e] using node_ind'; intros path name info m Hst.
  - injection Hst as <-. simpl. unfold walkFn, key_of. simpl.
    destruct (String.eqb by_ "hash"); [|done].
    by destruct (calculateFileHash w path).
  - injection Hst as <-. simpl. unfold walkFn at 1. simpl.
    destruct le as [e|]; [done|].
    destruct (negb recursive && negb (String.eqb path searchPath)) eqn:Hskip;
      [done|].
    clear Hskip. revert m.
    induction es as [|[nm c] es IHes]; intros m; [done|].
    apply Forall_cons in IH as [IHc IH]. simpl in IHc.
    cbn [walk_names flat_map fst snd]. rewrite add_all_app.
    destruct (stat_node nm c) as [fi|err] eqn:Hc.
    + rewrite (IHc _ _ _ _ Hc).
      assert (IsDir fi = is_dir c) as Hdir.
      { destruct c; simpl in Hc; by simplify_eq. }
      destruct c as [f|[e|] es'|e]; simpl; try by apply IHes.
      rewrite Hdir. simpl. destruct (_ && _); by apply IHes.
    + destruct c; simplify_eq/=. by apply IHes.
  - done.
Qed.

Lemma scan_candidates w fl searchPath :
  scan w fl searchPath = (None, group_files (candidates w fl searchPath)).
Proof.
  unfold scan, Walk, candidates, group_files.
  destruct (resolve w searchPath) as [n|]; [|done].
  destruct (stat_node (basename searchPath) n) as [info|err] eqn:Hst.
  - rewrite (walk_visit _ _ _ _ _ _ _ _ _ Hst).
    by destruct n as [|[]|]; simpl; try destruct (_ && _).
  - by destruct n.
Qed.

(** ** Grouping *)

Lemma group_files_snoc cs kp :
  group_files (cs ++ [kp]) = append_at kp.1 kp.2 (group_files cs).
Proof. unfold group_files. by rewrite add_all_app. Qed.

Lemma paths_with_snoc key cs kp :
  paths_with key (cs ++ [kp]) =
  paths_with key cs ++ (if decide (kp.1 = key) then [kp.2] else []).
Proof.
  unfold paths_with. rewrite filter_app, map_app. f_equal.
  rewrite filter_cons, filter_nil. by case_decide.
Qed.

Lemma group_files_lookup cs key :
  group_files cs !! key =
  match paths_with key cs with [] => None | ps => Some ps end.
Proof.
  induction cs as [|kp cs IH] using rev_ind; [done|].
  rewrite group_files_snoc, paths_with_snoc. unfold append_at.
  case_decide as Hk.
  - rewrite Hk, lookup_insert_eq, IH.
    destruct (paths_with key cs); simpl; [done|].
    by destruct (l ++ [kp.2]) eqn:?; [destruct l|].
  - rewrite lookup_insert_ne, app_nil_r by done. apply IH.
Qed.

(** [fileMap] after the walk: under each key the paths found with it, in
    the order the walk found them. *)
Lemma scan_lookup w fl searchPath key :
  (scan w fl searchPath).2 !! key =
  match paths_with key (candidates w fl searchPath) with
  | [] => None
  | ps => Some ps
  end.
Proof. rewrite scan_candidates. apply group_files_lookup. Qed.

Lemma group_files_Some cs key files :
  group_files cs !! key = Some files <->
  files = paths_with key cs /\ files <> [].
Proof.
  rewrite group_files_lookup.
  destruct (paths_with key cs); split;
    [done | by intros [-> ?] | by intros [= <-] | by intros [-> _]].
Qed.

(** ** The order of [range] *)

Lemma pick_order_perm {A} n choice (l : list A) :
  length l = n -> pick_order n choice l ≡ₚ l.
Proof.
  revert choice l. induction n as [|n IH]; intros choice l Hlen.
  - by destruct l.
  - destruct l as [|d l']; [done|]. cbn [pick_order].
    set (i := (hd 0 choice mod length (d :: l'))%nat).
    assert (i < length (d :: l'))%nat as Hi
      by (apply Nat.mod_upper_bound; simpl; lia).
    destruct (lookup_lt_is_Some_2 _ _ Hi) as [x Hx].
    rewrite (nth_lookup_Some _ _ _ _ Hx).
    rewrite IH; [symmetry; by apply delete_Permutation|].
    rewrite length_delete by eauto. lia.
Qed.

Lemma range_map_perm {V} choice (m : gmap string V) :
  range_map choice m ≡ₚ map_to_list m.
Proof. by apply pick_order_perm. Qed.

Lemma elem_of_range_map {V} choice (m : gmap string V) k v :
  (k, v) ∈ range_map choice m <-> m !! k = Some v.
Proof. by rewrite range_map_perm, elem_of_map_to_list. Qed.

Lemma NoDup_range_map_keys {V} choice (m : gmap string V) :
  NoDup (range_map choice m).*1.
Proof. rewrite range_map_perm. apply NoDup_fst_map_to_list. Qed.

(** Every order of the keys is the order of some choice sequence. *)
Lemma pick_order_complete {A} (l l' : list A) :
  l ≡ₚ l' -> exists choice, pick_order (length l) choice l = l'.
Proof.
  revert l. induction l' as [|x l' IH]; intros l Hperm.
  - apply Permutation_nil_r in Hperm as ->. by exists [].
  - assert (x ∈ l) as [i Hi]%list_elem_of_lookup by (rewrite Hperm; left).
    pose proof (lookup_lt_Some _ _ _ Hi) as Hlt.
    destruct (IH (delete i l)) as [choice Hchoice].
    { apply (Permutation_cons_inv (a:=x)).
      by rewrite <- (delete_Permutation l i x Hi). }
    rewrite length_delete in Hchoice by eauto.
    exists (i :: choice). destruct l as [|d l0]; [done|].
    cbn [length] in *. cbn [pick_order hd tl].
    replace (length l0) with (S (length l0) - 1)%nat by lia.
    rewrite Nat.mod_small by (simpl; lia).
    rewrite Hchoice. by rewrite (nth_lookup_Some _ _ _ _ Hi).
Qed.

Lemma range_map_complete {V} (m : gmap string V) kvs :
  kvs ≡ₚ map_to_list m -> exists choice, range_map choice m = kvs.
Proof. intros Hperm. by apply pick_order_complete. Qed.

(** ** The loop over [fileMap] *)

Lemma collect_spec action kfs ds td :
  collect action kfs ds td =
  (ds ++ map (fun kf => duplicate_entry kf.1 kf.2)
           (filter (fun kf => (1 < length kf.2)%nat) kfs),
   td ++ if String.eqb action "delete"
         then flat_map (fun kf => tl kf.2)
                (filter (fun kf => (1 < length kf.2)%nat) kfs)
         else []).
Proof.
  revert ds td. induction kfs as [|[key files] kfs IH]; intros ds td.
  - simpl. destruct (String.eqb _ _); by rewrite !app_nil_r.
  - cbn [collect]. rewrite filter_cons. cbn [snd].
    destruct (1 <? length files)%nat eqn:Hlen.
    + apply Nat.ltb_lt in Hlen. rewrite decide_True by done.
      rewrite IH. destruct (String.eqb action "delete"); simpl;
        by rewrite <- !app_assoc.
    + apply Nat.ltb_ge in Hlen. rewrite decide_False by lia. apply IH.
Qed.

Lemma plan_spec choice fl searchPath w :
  plan choice fl searchPath w =
  let gs := group_list choice (candidates w fl searchPath) in
  (map (fun kf => duplicate_entry kf.1 kf.2) gs,
   if String.eqb (action fl) "delete" then flat_map (fun kf => tl kf.2) gs
   else []).
Proof.
  unfold plan. rewrite scan_candidates, collect_spec. done.
Qed.

Lemma elem_of_group_list choice cs key files :
  (key, files) ∈ group_list choice cs <->
  files = paths_with key cs /\ (1 < length files)%nat.
Proof.
  unfold group_list. rewrite list_elem_of_filter, elem_of_range_map.
  rewrite group_files_Some. cbn [snd]. split.
  - by intros (? & -> & ?).
  - intros [-> Hlen]. split_and!; [done|done|].
    intros E. rewrite E in Hlen. simpl in Hlen. lia.
Qed.

Lemma NoDup_group_list_keys choice cs : NoDup (group_list choice cs).*1.
Proof.
  unfold group_list.
  apply (sublist_NoDup _ (range_map choice (group_files cs)).*1).
  - apply NoDup_range_map_keys.
  - apply fmap_sublist. apply sublist_filter.
Qed.

(** ** The shape of a run *)

Lemma runDedupe_json choice fl args w :
  outputFormat fl = "json" ->
  runDedupe choice fl args w =
  let '(duplicates, toDelete) := plan choice fl (search_path args) w in
  {| run_err := None;
     run_events :=
       [EncodeJSON {| Success := true;
                      Data := Some (report fl (search_path args)
                                      duplicates toDelete);
                      Error := "" |}];
     run_world := w |}.
Proof.
  intros Hfmt. unfold runDedupe, plan. fold (search_path args).
  rewrite scan_candidates. cbn [snd].
  destruct (collect _ _ _ _) as [ds td].
  unfold output_PrintSuccess, output_Print. by rewrite Hfmt.
Qed.

Lemma runDedupe_plain choice fl args w :
  outputFormat fl <> "json" ->
  runDedupe choice fl args w =
  let '(duplicates, toDelete) := plan choice fl (search_path args) w in
  let '(removal, w') := removal_phase fl toDelete w in
  {| run_err := None;
     run_events :=
       flat_map print_group duplicates ++ removal ++ [found_line duplicates];
     run_world := w' |}.
Proof.
  intros Hfmt. unfold runDedupe, plan. fold (search_path args).
  rewrite scan_candidates. cbn [snd].
  destruct (collect _ _ _ _) as [ds td].
  by apply String.eqb_neq in Hfmt as ->.
Qed.

Lemma runDedupe_no_error choice fl args w :
  run_err (runDedupe choice fl args w) = None.
Proof.
  unfold runDedupe. rewrite scan_candidates.
  destruct (collect _ _ _ _) as [ds td].
  destruct (String.eqb _ _); [done|]. by destruct (removal_phase _ _ _).
Qed.

(** ** Removal attempts of a run *)

Lemma removals_app evs1 evs2 :
  removals (evs1 ++ evs2) = removals evs1 ++ removals evs2.
Proof. apply flat_map_app. Qed.

Lemma removals_print_groups ds : removals (flat_map print_group ds) = [].
Proof.
  induction ds as [|d ds IH]; [done|].
  cbn [flat_map]. rewrite removals_app, IH, app_nil_r.
  unfold print_group. rewrite removals_app. simpl.
  by induction (as_strings _).
Qed.

Lemma delete_loop_dry toDelete w :
  (delete_loop true toDelete w).2 = w /\
  removals (delete_loop true toDelete w).1 = [].
Proof.
  induction toDelete as [|file rest [IHw IHr]]; [done|].
  simpl. by destruct (delete_loop true rest w).
Qed.

Lemma delete_loop_apply toDelete w :
  removals (delete_loop false toDelete w).1 = (attempts toDelete w).1 /\
  (delete_loop false toDelete w).2 = (attempts toDelete w).2.
Proof.
  revert w. induction toDelete as [|file rest IH]; intros w; [done|].
  simpl. destruct (os_Remove w file) as [err w1].
  specialize (IH w1).
  destruct (delete_loop false rest w1), (attempts rest w1).
  simpl in *. destruct IH as [-> ->]. done.
Qed.

Lemma attempts_paths toDelete w : (attempts toDelete w).1.*1 = toDelete.
Proof.
  revert w. induction toDelete as [|file rest IH]; intros w; [done|].
  simpl. destruct (os_Remove w file) as [err w1].
  specialize (IH w1). destruct (attempts rest w1). simpl in *. by f_equal.
Qed.

Lemma removal_phase_dry fl toDelete w :
  dryRun fl = true ->
  (removal_phase fl toDelete w).2 = w /\
  removals (removal_phase fl toDelete w).1 = [].
Proof.
  intros Hdry. unfold removal_phase. rewrite Hdry.
  destruct (_ && _); [|done].
  destruct (delete_loop_dry toDelete w) as [Hw Hr].
  by destruct (delete_loop true toDelete w).
Qed.

Lemma removal_phase_apply fl toDelete w :
  action fl = "delete" -> dryRun fl = false ->
  removals (removal_phase fl toDelete w).1 = (attempts toDelete w).1 /\
  (removal_phase fl toDelete w).2 = (attempts toDelete w).2.
Proof.
  intros Hact Hdry. unfold removal_phase. rewrite Hact, Hdry.
  destruct toDelete as [|file rest]; [done|].
  cbn [String.eqb Ascii.eqb Bool.eqb andb length Nat.ltb Nat.leb].
  destruct (delete_loop_apply (file :: rest) w) as [Hr Hw].
  by destruct (delete_loop false (file :: rest) w).
Qed.

Lemma removal_phase_list fl toDelete w :
  action fl <> "delete" -> removal_phase fl toDelete w = ([], w).
Proof.
  intros Hact. unfold removal_phase.
  by apply String.eqb_neq in Hact as ->.
Qed.

(** ** Preview mode *)

(** C5: with [--dry-run] the run leaves the world as it found it, every
    file and every content, and makes no [os.Remove] call, whatever the
    tree, the action and the output format. *)
Theorem dry_run_mutates_nothing choice fl args w :
  dryRun fl = true ->
  run_world (runDedupe choice fl args w) = w /\
  removals (run_events (runDedupe choice fl args w)) = [].
Proof.
  intros Hdry.
  destruct (decide (outputFormat fl = "json")) as [Hfmt|Hfmt].
  - rewrite (runDedupe_json _ _ _ _ Hfmt). by destruct (plan _ _ _ _).
  - rewrite (runDedupe_plain _ _ _ _ Hfmt).
    destruct (plan _ _ _ _) as [ds td].
    destruct (removal_phase_dry fl td w Hdry) as [Hw Hr].
    destruct (removal_phase fl td w) as [evs w']. simpl in *.
    by rewrite !removals_app, removals_print_groups, Hr.
Qed.

(** Without [--action delete] nothing is removed either. *)
Lemma list_action_mutates_nothing choice fl args w :
  action fl <> "delete" ->
  run_world (runDedupe choice fl args w) = w /\
  removals (run_events (runDedupe choice fl args w)) = [].
Proof.
  intros Hact.
  destruct (decide (outputFormat fl = "json")) as [Hfmt|Hfmt].
  - rewrite (runDedupe_json _ _ _ _ Hfmt). by destruct (plan _ _ _ _).
  - rewrite (runDedupe_plain _ _ _ _ Hfmt).
    destruct (plan _ _ _ _) as [ds td].
    rewrite removal_phase_list by done. cbn [run_world run_events].
    by rewrite !removals_app, removals_print_groups.
Qed.

Lemma dry_run_mutates_nothing_witness :
  let fl := {| by_ := "hash"; action := "delete"; dryRun := true;
               recursive := true; outputFormat := "plain" |} in
  dryRun fl = true /\
  run_world (runDedupe [] fl ["d"] sample_deep) = sample_deep /\
  removals (run_events (runDedupe [] fl ["d"] sample_deep)) = [].
Proof.
  intros fl. split; [reflexivity|].
  apply (dry_run_mutates_nothing [] fl ["d"] sample_deep). reflexivity.
Defined.

(** ** The report *)

Lemma dom_report fl searchPath ds td :
  dom (report fl searchPath ds td) =
  {[ "path"; "method"; "duplicates"; "count"; "to_delete"; "dry_run" ]}.
Proof.
  unfold report. rewrite !dom_insert_L, dom_singleton_L.
  vm_compute. reflexivity.
Qed.

Lemma dom_duplicate_entry key files :
  dom (duplicate_entry key files) =
  {[ "key"; "keep"; "duplicates"; "count" ]}.
Proof.
  unfold duplicate_entry. rewrite !dom_insert_L, dom_singleton_L.
  vm_compute. reflexivity.
Qed.

(** C3, as the code has it: the report of the JSON branch has exactly the
    fields [path], [method], [duplicates], [count], [to_delete] and
    [dry_run], and every element of [duplicates] has exactly [key], [keep],
    [duplicates] and [count]. *)
Theorem json_report_fields choice fl args w :
  outputFormat fl = "json" ->
  exists data ds,
    run_events (runDedupe choice fl args w) =
      [EncodeJSON {| Success := true; Data := Some data; Error := "" |}] /\
    dom data =
      {[ "path"; "method"; "duplicates"; "count"; "to_delete"; "dry_run" ]} /\
    data !! "duplicates" = Some (VMaps ds) /\
    forall d, d ∈ ds -> dom d = {[ "key"; "keep"; "duplicates"; "count" ]}.
Proof.
  intros Hfmt. rewrite (runDedupe_json _ _ _ _ Hfmt), plan_spec.
  cbv zeta. eexists _, _. split; [reflexivity|].
  split; [apply dom_report|]. split; [by unfold report; simplify_map_eq|].
  intros d [kf [-> _]]%list_elem_of_fmap. apply dom_duplicate_entry.
Qed.

Lemma json_report_fields_witness :
  outputFormat (apply_flags "json") = "json" /\
  exists data ds,
    run_events (runDedupe [] (apply_flags "json") ["d"] sample) =
      [EncodeJSON {| Success := true; Data := Some data; Error := "" |}] /\
    dom data =
      {[ "path"; "method"; "duplicates"; "count"; "to_delete"; "dry_run" ]} /\
    data !! "duplicates" = Some (VMaps ds) /\
    forall d, d ∈ ds -> dom d = {[ "key"; "keep"; "duplicates"; "count" ]}.
Proof.
  split; [reflexivity|].
  apply (json_report_fields [] (apply_flags "json") ["d"] sample). reflexivity.
Defined.

(** C3 as stated fails: the report of a JSON run has no field [root_path]
    (the search path is under [path]), so its fields are not the six the
    claim lists. *)
Lemma json_report_has_no_root_path :
  exists data,
    run_events (runDedupe [] (apply_flags "json") ["d"] sample) =
      [EncodeJSON {| Success := true; Data := Some data; Error := "" |}] /\
    data !! "root_path" = None /\
    data !! "path" = Some (VString "d") /\
    dom data <>
      {[ "root_path"; "method"; "duplicates"; "count"; "to_delete";
         "dry_run" ]}.
Proof.
  exists (report (apply_flags "json") "d"
            (plan [] (apply_flags "json") "d" sample).1
            (plan [] (apply_flags "json") "d" sample).2).
  split.
  { rewrite runDedupe_json by reflexivity. cbn [search_path].
    by destruct (plan _ _ _ _). }
  split; [by unfold report; simplify_map_eq|].
  split; [by unfold report; simplify_map_eq|].
  rewrite dom_report. intros Heq.
  apply (f_equal (fun s : gset string => bool_decide ("root_path" ∈ s))) in Heq.
  vm_compute in Heq. discriminate.
Qed.

(** ** Errors of the walk *)

(** C2 on a root that does not exist, and on a root that cannot be listed:
    the callback swallows the error that [filepath.Walk] hands it,
    [filepath.Walk] returns nil and so does [runDedupe]; the run prints that
    it found no group.  The error return of [runDedupe] is never taken
    ([runDedupe_no_error]). *)
Theorem missing_root_returns_nil :
  resolve sample "missing" = None /\
  run_err (runDedupe [] default_flags ["missing"] sample) = None /\
  run_events (runDedupe [] default_flags ["missing"] sample) =
    [found_line []] /\
  plan [] default_flags "missing" sample = ([], []) /\
  resolve sample_deep "d/dir3" =
    Some (Dir (Some EACCES) [("img.jpg", plain_file "3")]) /\
  run_err (runDedupe [] default_flags ["d/dir3"] sample_deep) = None /\
  run_events (runDedupe [] default_flags ["d/dir3"] sample_deep) =
    [found_line []].
Proof. vm_compute. done. Qed.

Lemma walk_names_app {S} (fn : WalkFunc S) rec path es1 es2 m :
  walk_names fn rec path (es1 ++ es2) m =
  let '(r, m1) := walk_names fn rec path es1 m in
  match r with
  | WNil => walk_names fn rec path es2 m1
  | _ => (r, m1)
  end.
Proof.
  revert m. induction es1 as [|e es1 IH]; intros m; [done|].
  cbn [app walk_names].
  destruct (stat_node e.1 e.2).
  - destruct (rec _ _ _ _) as [[| |msg] m1]; [apply IH| |done].
    destruct (IsDir f); [apply IH|done].
  - destruct (fn _ _ _) as [[| |msg] m1]; [apply IH|apply IH|done].
Qed.

Lemma walk_failing_entry w by_ recursive searchPath path name c m :
  entry_fails w by_ (Join path name) c = true ->
  walk_names (walkFn w by_ recursive searchPath)
    (walk (walkFn w by_ recursive searchPath)) path [(name, c)] m = (WNil, m).
Proof.
  intros Hfail. cbn [walk_names fst snd].
  destruct c as [f|[e|] es|e]; simpl in *; try done.
  destruct (String.eqb by_ "hash"); [|done].
  by destruct (calculateFileHash w (Join path name)).
Qed.

(** C9: an entry whose [lstat] fails, a directory that cannot be listed and,
    under the hash strategy, a file that cannot be opened or read are left
    out and nothing else is: walking a directory that lists such an entry
    gives the result and the [fileMap] of walking it without the entry, and
    the run returns no error. *)
Theorem failing_entry_is_skipped w by_ recursive searchPath path info
    es1 name c es2 m :
  entry_fails w by_ (Join path name) c = true ->
  walk (walkFn w by_ recursive searchPath) path info
       (Dir None (es1 ++ (name, c) :: es2)) m =
  walk (walkFn w by_ recursive searchPath) path info
       (Dir None (es1 ++ es2)) m /\
  forall choice fl args, run_err (runDedupe choice fl args w) = None.
Proof.
  intros Hfail. split; [|intros; apply runDedupe_no_error].
  cbn [walk]. destruct (walkFn _ _ _ _ _ _ _) as [[| |msg] m0]; try done.
  rewrite !walk_names_app.
  destruct (walk_names _ _ _ es1 m0) as [[| |msg] m1]; try done.
  change ((name, c) :: es2) with ([(name, c)] ++ es2).
  by rewrite walk_names_app, walk_failing_entry.
Qed.

Lemma failing_entry_is_skipped_witness :
  let w := sample_deep in
  let fn := walkFn w "hash" true "d" in
  let info := {| Name := "d"; IsDir := true |} in
  entry_fails w "hash" (Join "d" "bad") (Broken EACCES) = true /\
  walk fn "d" info
    (Dir None ([("a.txt", plain_file "X")] ++
               ("bad", Broken EACCES) :: [("c.txt", plain_file "X")])) ∅ =
  walk fn "d" info
    (Dir None ([("a.txt", plain_file "X")] ++ [("c.txt", plain_file "X")])) ∅ /\
  forall choice fl args, run_err (runDedupe choice fl args w) = None.
Proof.
  intros w fn info. split; [reflexivity|].
  apply (failing_entry_is_skipped w "hash" true "d" "d" info
           [("a.txt", plain_file "X")] "bad" (Broken EACCES)
           [("c.txt", plain_file "X")] ∅).
  reflexivity.
Defined.

(** ** The strategy flag *)

Lemma walkFn_not_hash w by_ recursive searchPath :
  by_ <> "hash" ->
  forall path arg m,
    walkFn w by_ recursive searchPath path arg m =
    walkFn w "name" recursive searchPath path arg m.
Proof.
  intros Hby path arg m. unfold walkFn.
  by apply String.eqb_neq in Hby as ->.
Qed.

Lemma visit_not_hash w by_ recursive searchPath n :
  by_ <> "hash" ->
  forall path name,
    visit w by_ recursive searchPath path name n =
    visit w "name" recursive searchPath path name n.
Proof.
  intros Hby. apply String.eqb_neq in Hby.
  induction n as [f|le es IH|e] using node_ind'; intros path name; try done.
  - simpl. unfold key_of. by rewrite Hby.
  - simpl. destruct le; [done|]. destruct (_ && _); [done|].
    induction IH as [|e es He _ IHes]; [done|].
    simpl. by rewrite He, IHes.
Qed.

(** C10: every value of [--by] other than "hash" keys a file by the name of
    its entry, as "name" does, and no value is refused: the walk gives the
    same [fileMap], the loop the same groups and deletions, and the run
    returns no error. *)
Theorem other_strategy_is_name choice fl args w :
  by_ fl <> "hash" ->
  (forall path info m,
     IsDir info = false ->
     walkFn w (by_ fl) (recursive fl) (search_path args) path
            (Stat info None) m =
     (WNil, append_at (Name info) path m)) /\
  scan w fl (search_path args) =
    scan w (with_by fl "name") (search_path args) /\
  plan choice fl (search_path args) w =
    plan choice (with_by fl "name") (search_path args) w /\
  run_err (runDedupe choice fl args w) = None.
Proof.
  intros Hby.
  assert (scan w fl (search_path args) =
          scan w (with_by fl "name") (search_path args)) as Hscan.
  { rewrite !scan_candidates. unfold candidates. cbn [by_ recursive with_by].
    destruct (resolve _ _); [|done]. by rewrite visit_not_hash. }
  split_and!.
  - intros path info m Hdir. unfold walkFn. rewrite Hdir.
    by apply String.eqb_neq in Hby as ->.
  - done.
  - unfold plan. by rewrite Hscan.
  - apply runDedupe_no_error.
Qed.

Lemma other_strategy_is_name_witness :
  let fl := with_by (apply_flags "plain") "size" in
  by_ fl <> "hash" /\
  (forall path info m,
     IsDir info = false ->
     walkFn sample_deep (by_ fl) (recursive fl) (search_path ["d"]) path
            (Stat info None) m =
     (WNil, append_at (Name info) path m)) /\
  scan sample_deep fl (search_path ["d"]) =
    scan sample_deep (with_by fl "name") (search_path ["d"]) /\
  plan [] fl (search_path ["d"]) sample_deep =
    plan [] (with_by fl "name") (search_path ["d"]) sample_deep /\
  run_err (runDedupe [] fl ["d"] sample_deep) = None.
Proof.
  intros fl. split; [discriminate|].
  apply (other_strategy_is_name [] fl ["d"] sample_deep). discriminate.
Defined.

(** ** Paths of the pass *)

Lemma assoc_elem_of {A} p (l : list (string * A)) a :
  assoc p l = Some a -> (p, a) ∈ l.
Proof.
  induction l as [|[q b] l IH]; [done|]. simpl.
  destruct (String.eqb q p) eqn:Hq.
  - apply String.eqb_eq in Hq as ->. intros [= ->]. left.
  - intros ?. right. auto.
Qed.

Lemma assoc_NoDup {A} p (l : list (string * A)) a :
  NoDup l.*1 -> (p, a) ∈ l -> assoc p l = Some a.
Proof.
  induction l as [|[q b] l IH]; [by intros _ ?%elem_of_nil|].
  rewrite fmap_cons, NoDup_cons. intros [Hq Hl] Hin. simpl.
  apply elem_of_cons in Hin as [[= <- <-]|Hin].
  - by rewrite String.eqb_refl.
  - destruct (String.eqb q p) eqn:Heq; [|auto].
    apply String.eqb_eq in Heq as ->. destruct Hq.
    apply list_elem_of_fmap. by exists (p, a).
Qed.

Lemma sublist_flat_map_elem {A B} (f : A -> list B) x l :
  x ∈ l -> f x `sublist_of` flat_map f l.
Proof.
  induction l as [|y l IH]; [by intros ?%elem_of_nil|].
  intros [->|Hin]%elem_of_cons; simpl.
  - by apply sublist_inserts_r.
  - by apply sublist_inserts_l, IH.
Qed.

Lemma sublist_flat_map {A B} (f g : A -> list B) l :
  Forall (fun x => f x `sublist_of` g x) l ->
  flat_map f l `sublist_of` flat_map g l.
Proof.
  induction 1 as [|x l Hx _ IH]; [done|]. simpl. by apply sublist_app.
Qed.

Lemma elem_of_flat_map {A B} (f : A -> list B) l y :
  y ∈ flat_map f l <-> exists x, x ∈ l /\ y ∈ f x.
Proof.
  rewrite list_elem_of_In, in_flat_map.
  by setoid_rewrite list_elem_of_In.
Qed.

Lemma entries_of_subtree p n : forall r t,
  (p, n) ∈ entries_of r t -> entries_of p n `sublist_of` entries_of r t.
Proof.
  intros r t. revert r.
  induction t as [f|le es IH|e] using node_ind'; intros r Hin.
  - apply list_elem_of_singleton in Hin as [= -> ->]. done.
  - cbn [entries_of] in Hin. apply elem_of_cons in Hin as [[= -> ->]|Hin];
      [done|].
    apply elem_of_flat_map in Hin as (e & He & Hin).
    cbn [entries_of]. apply sublist_cons.
    etrans; [|by apply (sublist_flat_map_elem _ e)].
    rewrite Forall_forall in IH. by apply IH.
  - apply list_elem_of_singleton in Hin as [= -> ->]. done.
Qed.

Lemma visit_paths w by_ recursive searchPath n : forall path name,
  (visit w by_ recursive searchPath path name n).*2
    `sublist_of` (entries_of path n).*1.
Proof.
  induction n as [f|le es IH|e] using node_ind'; intros path name.
  - simpl. destruct (key_of _ _ _ _); simpl; [done|]. by apply sublist_cons.
  - cbn [visit entries_of]. rewrite fmap_cons. apply sublist_cons.
    destruct le; [apply sublist_nil_l|].
    destruct (_ && _); [apply sublist_nil_l|].
    induction IH as [|e es He _ IHes]; [done|].
    simpl. rewrite !fmap_app. by apply sublist_app.
  - apply sublist_nil_l.
Qed.

Lemma candidates_paths w fl searchPath :
  (candidates w fl searchPath).*2
    `sublist_of` (entries_of (mount w) (tree w)).*1.
Proof.
  unfold candidates. destruct (resolve w searchPath) as [n|] eqn:Hn;
    [|apply sublist_nil_l].
  etrans; [apply visit_paths|].
  apply fmap_sublist, entries_of_subtree. by apply assoc_elem_of.
Qed.

Lemma NoDup_candidates w fl searchPath :
  wf_world w -> NoDup (candidates w fl searchPath).*2.
Proof. intros Hwf. eapply sublist_NoDup; [done|apply candidates_paths]. Qed.

Lemma NoDup_snd_key (cs : list (string * string)) k1 k2 p :
  NoDup cs.*2 -> (k1, p) ∈ cs -> (k2, p) ∈ cs -> k1 = k2.
Proof.
  induction cs as [|[k q] cs IH]; [by intros _ ?%elem_of_nil|].
  rewrite fmap_cons, NoDup_cons. intros [Hq Hcs] H1 H2.
  apply elem_of_cons in H1 as [H1|H1];
    apply elem_of_cons in H2 as [H2|H2]; simplify_eq; try done.
  - destruct Hq. apply list_elem_of_fmap. by exists (k2, q).
  - destruct Hq. apply list_elem_of_fmap. by exists (k1, q).
  - by apply IH.
Qed.

Lemma elem_of_paths_with key cs p :
  p ∈ paths_with key cs <-> (key, p) ∈ cs.
Proof.
  unfold paths_with. rewrite list_elem_of_fmap. split.
  - intros ([k q] & -> & [Hk Hin]%list_elem_of_filter). simpl in *. by subst.
  - intros Hin. exists (key, p). split; [done|].
    by apply list_elem_of_filter.
Qed.

Lemma paths_with_sublist key cs : paths_with key cs `sublist_of` cs.*2.
Proof. unfold paths_with. apply fmap_sublist. apply sublist_filter. Qed.

(** The first path under a key comes before the others. *)
Lemma paths_with_first key cs keep dups :
  paths_with key cs = keep :: dups ->
  exists pre post,
    cs = pre ++ (key, keep) :: post /\
    paths_with key pre = [] /\ paths_with key post = dups.
Proof.
  induction cs as [|[k p] cs IH]; [done|].
  unfold paths_with in *. rewrite filter_cons. cbn [fst].
  case_decide as Hk.
  - subst k. rewrite fmap_cons. intros [= -> <-]. by exists [], cs.
  - intros (pre & post & -> & Hpre & Hpost)%IH.
    exists ((k, p) :: pre), post. split_and!; [done| |done].
    rewrite filter_cons. cbn [fst]. by rewrite decide_False.
Qed.

(** ** Base names *)

Lemma list_ascii_of_string_app s1 s2 :
  list_ascii_of_string (s1 +:+ s2) =
  list_ascii_of_string s1 ++ list_ascii_of_string s2.
Proof. induction s1 as [|c s1 IH]; [done|]. simpl. by rewrite IH. Qed.

Lemma until_slash_plain cs rest :
  forallb (fun c => negb (Ascii.eqb c "/")) cs = true ->
  until_slash (cs ++ "/"%char :: rest) = cs /\ until_slash cs = cs.
Proof.
  induction cs as [|c cs IH]; [done|]. simpl.
  intros [Hc Hcs]%andb_prop. apply negb_true_iff in Hc. rewrite Hc.
  destruct (IH Hcs) as [-> ->]. done.
Qed.

Lemma drop_slashes_plain c cs :
  Ascii.eqb c "/" = false -> drop_slashes (c :: cs) = c :: cs.
Proof. intros Hc. simpl. destruct cs; [done|]. by rewrite Hc. Qed.

Lemma basename_core (rn rd : list ascii) :
  rn <> [] ->
  forallb (fun c => negb (Ascii.eqb c "/")) rn = true ->
  rd = [] \/ (exists rest, rd = "/"%char :: rest) ->
  until_slash (drop_slashes (rn ++ rd)) = rn.
Proof.
  intros Hne Hplain Hrd. destruct rn as [|c rn']; [done|].
  pose proof Hplain as Hp. simpl in Hp.
  apply andb_prop in Hp as [Hc _]. apply negb_true_iff in Hc.
  change ((c :: rn') ++ rd) with (c :: (rn' ++ rd)).
  rewrite drop_slashes_plain by done.
  change (c :: (rn' ++ rd)) with ((c :: rn') ++ rd).
  destruct Hrd as [->|[rest ->]].
  - rewrite app_nil_r. by apply (until_slash_plain _ []).
  - by apply until_slash_plain.
Qed.

Lemma basename_Join dir name :
  plain_name name = true -> basename (Join dir name) = name.
Proof.
  unfold plain_name. intros [Hne Hplain]%andb_prop.
  apply negb_true_iff, String.eqb_neq in Hne.
  set (cs := list_ascii_of_string name) in *.
  assert (forallb (fun c => negb (Ascii.eqb c "/")) (rev cs) = true) as Hrev.
  { rewrite forallb_forall in *. intros c Hc. apply Hplain.
    by apply in_rev. }
  assert (rev cs <> []) as Hcs.
  { intros Hnil. destruct Hne.
    rewrite <- (string_of_list_ascii_of_string name). fold cs.
    apply (f_equal (@rev _)) in Hnil. rewrite rev_involutive in Hnil.
    by rewrite Hnil. }
  assert (forall rd, rd = [] \/ (exists rest, rd = "/"%char :: rest) ->
    string_of_list_ascii (rev (until_slash (drop_slashes (rev cs ++ rd))))
    = name) as Hgen.
  { intros rd Hrd. rewrite basename_core by done.
    rewrite rev_involutive. apply string_of_list_ascii_of_string. }
  unfold Join, basename.
  destruct (String.eqb dir ".").
  { fold cs. rewrite <- (app_nil_r (rev cs)). apply Hgen. by left. }
  unfold ends_with_slash.
  destruct (rev (list_ascii_of_string dir)) as [|d ds] eqn:Hdir.
  - rewrite !list_ascii_of_string_app. fold cs.
    rewrite !rev_app_distr, Hdir, app_nil_r. simpl.
    apply Hgen. right. by eexists.
  - destruct (Ascii.eqb d "/") eqn:Hd.
    + apply Ascii.eqb_eq in Hd as ->.
      rewrite list_ascii_of_string_app. fold cs.
      rewrite rev_app_distr, Hdir. apply Hgen. right. by eexists.
    + rewrite !list_ascii_of_string_app. fold cs.
      rewrite !rev_app_distr. simpl.
      rewrite <- app_assoc. apply Hgen. right. by eexists.
Qed.

(** ** Trees that a file system can hold

    When the names of every directory are plain and distinct, a path names
    one entry. *)

Lemma sapp_cons ch (a b : string) : String ch a +:+ b = String ch (a +:+ b).
Proof. reflexivity. Qed.

Lemma sapp_nil_l (a : string) : "" +:+ a = a.
Proof. reflexivity. Qed.

Lemma sapp_assoc (a b c : string) : (a +:+ b) +:+ c = a +:+ (b +:+ c).
Proof.
  induction a as [|ch a IH]; [done|]. by rewrite !sapp_cons, IH.
Qed.

Lemma sapp_nil_r (a : string) : a +:+ "" = a.
Proof. induction a as [|ch a IH]; [done|]. by rewrite sapp_cons, IH. Qed.

Lemma sapp_inv_l (x a b : string) : x +:+ a = x +:+ b -> a = b.
Proof.
  induction x as [|ch x IH]; [by rewrite !sapp_nil_l|].
  rewrite !sapp_cons. intros [= ?]. auto.
Qed.

Lemma plain_name_split (a b s s' : string) :
  forallb (fun c => negb (Ascii.eqb c "/")) (list_ascii_of_string a) = true ->
  forallb (fun c => negb (Ascii.eqb c "/")) (list_ascii_of_string b) = true ->
  s = "" \/ (exists rest, s = "/" +:+ rest) ->
  s' = "" \/ (exists rest, s' = "/" +:+ rest) ->
  a +:+ s = b +:+ s' -> a = b.
Proof.
  revert b. induction a as [|ch a IH]; intros [|ch' b] Ha Hb Hs Hs';
    rewrite ?sapp_cons, ?sapp_nil_l; simpl in Ha, Hb.
  - done.
  - apply andb_prop in Hb as [Hch _]. apply negb_true_iff in Hch.
    intros ->. destruct Hs as [?|[rest Hrest]]; [done|].
    rewrite sapp_cons in Hrest. injection Hrest as -> _.
    by rewrite Ascii.eqb_refl in Hch.
  - apply andb_prop in Ha as [Hch _]. apply negb_true_iff in Hch.
    intros <-. destruct Hs' as [?|[rest Hrest]]; [done|].
    rewrite sapp_cons in Hrest. injection Hrest as -> _.
    by rewrite Ascii.eqb_refl in Hch.
  - apply andb_prop in Ha as [_ Ha]. apply andb_prop in Hb as [_ Hb].
    intros [= -> Heq]. f_equal. by apply (IH b).
Qed.

Lemma plain_name_inv name :
  plain_name name = true ->
  name <> "" /\
  forallb (fun c => negb (Ascii.eqb c "/")) (list_ascii_of_string name) = true.
Proof.
  unfold plain_name. intros [Hne Hplain]%andb_prop.
  by apply negb_true_iff, String.eqb_neq in Hne.
Qed.

Lemma ends_with_slash_plain x name :
  plain_name name = true -> ends_with_slash (x +:+ name) = false.
Proof.
  intros [Hne Hplain]%plain_name_inv. unfold ends_with_slash.
  rewrite list_ascii_of_string_app, rev_app_distr.
  destruct (rev (list_ascii_of_string name)) as [|c cs] eqn:Hrev.
  - destruct Hne. rewrite <- (string_of_list_ascii_of_string name).
    apply (f_equal (@rev _)) in Hrev. rewrite rev_involutive in Hrev.
    by rewrite Hrev.
  - simpl. rewrite forallb_forall in Hplain.
    apply negb_true_iff, Hplain, in_rev. rewrite Hrev. by left.
Qed.

Lemma Join_prefix dir name : Join dir name = join_prefix dir +:+ name.
Proof.
  unfold Join, join_prefix. destruct (String.eqb dir "."); [done|].
  destruct (ends_with_slash dir); [done|]. by rewrite sapp_assoc.
Qed.

Lemma join_prefix_dir dir :
  dir = "." /\ join_prefix dir = "" \/
  dir <> "." /\ exists y, join_prefix dir = dir +:+ y.
Proof.
  unfold join_prefix. destruct (String.eqb dir ".") eqn:Hdot.
  - left. by apply String.eqb_eq in Hdot.
  - right. apply String.eqb_neq in Hdot. split; [done|].
    destruct (ends_with_slash dir); [exists ""; by rewrite sapp_nil_r|by eexists].
Qed.

Lemma Join_not_dot dir name :
  plain_name name = true -> name <> "." -> Join dir name <> ".".
Proof.
  intros [Hne _]%plain_name_inv Hdot. rewrite Join_prefix.
  destruct (join_prefix dir) as [|c [|c' x]]; [done| |done].
  by destruct name.
Qed.

Lemma Join_below dir name :
  dir <> "." -> ends_with_slash dir = false ->
  Join dir name = dir +:+ "/" +:+ name.
Proof.
  intros Hdot%String.eqb_neq Hslash. unfold Join. by rewrite Hdot, Hslash.
Qed.

Lemma listing_ok_entry le es e :
  listing_ok (Dir le es) = true -> e ∈ es ->
  plain_name e.1 = true /\ e.1 <> "." /\ listing_ok e.2 = true.
Proof.
  simpl. intros [_ Hall]%andb_prop He. rewrite forallb_forall in Hall.
  apply list_elem_of_In, Hall in He.
  apply andb_prop in He as [[Hplain Hdot]%andb_prop Hok].
  by apply negb_true_iff, String.eqb_neq in Hdot.
Qed.

Lemma under_entries t : forall c q,
  c <> "." -> ends_with_slash c = false -> listing_ok t = true ->
  q ∈ (entries_of c t).*1 -> under c q.
Proof.
  induction t as [f|le es IH|e] using node_ind'; intros c q Hdot Hslash Hok.
  - intros ->%list_elem_of_singleton. exists "". by rewrite sapp_nil_r; eauto.
  - cbn [entries_of]. rewrite fmap_cons.
    intros [->|Hq]%elem_of_cons.
    { exists "". by rewrite sapp_nil_r; eauto. }
    apply list_elem_of_fmap in Hq as ([q' n] & -> & Hq).
    apply elem_of_flat_map in Hq as (e & He & Hq).
    destruct (listing_ok_entry _ _ _ Hok He) as (Hplain & Hne & Hsub).
    rewrite Forall_forall in IH.
    destruct (IH e He (Join c e.1) q') as (s & -> & Hs).
    + by apply Join_not_dot.
    + rewrite Join_prefix. by apply ends_with_slash_plain.
    + done.
    + apply list_elem_of_fmap. by exists (q', n).
    + rewrite Join_below by done. exists ("/" +:+ e.1 +:+ s).
      split; [by rewrite !sapp_assoc|]. right. by eexists.
  - intros ->%list_elem_of_singleton. exists "". by rewrite sapp_nil_r; eauto.
Qed.

Lemma under_child r e le es q :
  listing_ok (Dir le es) = true -> e ∈ es ->
  q ∈ (entries_of (Join r e.1) e.2).*1 ->
  under (Join r e.1) q.
Proof.
  intros Hok He. destruct (listing_ok_entry _ _ _ Hok He) as (Hplain & Hne & Hsub).
  apply under_entries; [by apply Join_not_dot| |done].
  rewrite Join_prefix. by apply ends_with_slash_plain.
Qed.

Lemma listing_ok_NoDup t : forall r,
  listing_ok t = true -> NoDup (entries_of r t).*1.
Proof.
  induction t as [f|le es IH|e] using node_ind'; intros r Hok;
    try apply NoDup_singleton.
  cbn [entries_of]. rewrite fmap_cons. apply NoDup_cons. split.
  - (* the directory is none of the entries below it *)
    intros Hin. apply list_elem_of_fmap in Hin as ([q n] & Hq & Hin).
    simpl in Hq. subst q.
    apply elem_of_flat_map in Hin as (e & He & Hin).
    destruct (listing_ok_entry _ _ _ Hok He) as (Hplain & Hne & _).
    destruct (under_child r e le es r Hok He) as (s & Hs & _).
    { apply list_elem_of_fmap. by exists (r, n). }
    apply plain_name_inv in Hplain as [Hempty _].
    rewrite Join_prefix in Hs.
    destruct (join_prefix_dir r) as [[-> Hx]|[Hdot [y Hx]]]; rewrite Hx in Hs.
    + simpl in Hs. destruct e.1 as [|c [|c' nm]]; [done| |done].
      destruct s; [by simplify_eq|done].
    + rewrite !sapp_assoc in Hs. rewrite <- (sapp_nil_r r) in Hs at 1.
      apply sapp_inv_l in Hs. destruct y; [|done]. simpl in Hs.
      by destruct e.1.
  - (* entries below different names have different paths *)
    assert (NoDup es.*1) as Hnames.
    { simpl in Hok. apply andb_prop in Hok as [Hnd _].
      by apply bool_decide_eq_true in Hnd. }
    assert (forall e, e ∈ es -> listing_ok e.2 = true) as Hsub
      by (intros e He; by apply (listing_ok_entry _ _ _ Hok He)).
    assert (forall e q, e ∈ es -> q ∈ (entries_of (Join r e.1) e.2).*1 ->
              under (Join r e.1) q /\ plain_name e.1 = true) as Hunder.
    { intros e q He Hq. split; [by eapply under_child|].
      by apply (listing_ok_entry _ _ _ Hok He). }
    clear Hok. induction es as [|e es IHes]; [constructor|].
    apply Forall_cons in IH as [IHe IH].
    rewrite fmap_cons in Hnames. apply NoDup_cons in Hnames as [Hfresh Hnames].
    cbn [flat_map]. rewrite fmap_app. apply NoDup_app. split_and!.
    + apply IHe, Hsub. left.
    + intros q Hq Hq'.
      apply list_elem_of_fmap in Hq' as ([q' n] & Hq'' & Hin). simpl in Hq''.
      subst q'. apply elem_of_flat_map in Hin as (e' & He' & Hin).
      destruct (Hunder e q) as [(s & Hs & Htail) Hplain]; [left|done|].
      destruct (Hunder e' q) as [(s' & Hs' & Htail') Hplain']; [by right| |].
      { apply list_elem_of_fmap. by exists (q, n). }
      destruct Hfresh. apply list_elem_of_fmap. exists e'. split; [|done].
      rewrite !Join_prefix, !sapp_assoc in *. subst q.
      apply sapp_inv_l in Hs'.
      apply plain_name_inv in Hplain as [_ Hplain].
      apply plain_name_inv in Hplain' as [_ Hplain'].
      exact (plain_name_split _ _ s s' Hplain Hplain' Htail Htail' Hs').
    + apply IHes; try done.
      * intros e' He'. apply Hsub. by right.
      * intros e' q He'. apply Hunder. by right.
Qed.

Lemma listing_ok_wf w : listing_ok (tree w) = true -> wf_world w.
Proof. apply listing_ok_NoDup. Qed.

Lemma listing_ok_plain_names t : listing_ok t = true -> plain_names t = true.
Proof.
  induction t as [f|le es IH|e] using node_ind'; try done.
  intros Hok. simpl. apply forallb_forall. intros e He%list_elem_of_In.
  destruct (listing_ok_entry _ _ _ Hok He) as (-> & _ & Hsub).
  rewrite Forall_forall in IH. by rewrite IH.
Qed.

(** ** Groups *)

Lemma duplicate_entry_fields key files :
  duplicate_entry key files !! "key" = Some (VString key) /\
  duplicate_entry key files !! "keep" = Some (VString (hd "" files)) /\
  duplicate_entry key files !! "duplicates" = Some (VStrings (tl files)) /\
  duplicate_entry key files !! "count" =
    Some (VInt (Z.of_nat (length (tl files)))).
Proof. unfold duplicate_entry. by simplify_map_eq. Qed.

(** Every element of [duplicates] is the entry of a key with two paths or
    more, and holds these paths in discovery order. *)
Lemma plan_groups choice fl searchPath w d :
  d ∈ (plan choice fl searchPath w).1 ->
  exists key keep dups,
    d = duplicate_entry key (keep :: dups) /\
    (key, keep :: dups) ∈ group_list choice (candidates w fl searchPath) /\
    keep :: dups = paths_with key (candidates w fl searchPath) /\
    dups <> [].
Proof.
  rewrite plan_spec. cbn [fst].
  intros ([key files] & -> & Hin)%list_elem_of_fmap.
  pose proof Hin as [Hfiles Hlen]%elem_of_group_list.
  destruct files as [|keep [|p dups]]; simpl in Hlen; try lia.
  by exists key, keep, (p :: dups).
Qed.

Lemma plan_toDelete choice fl searchPath w p :
  p ∈ (plan choice fl searchPath w).2 <->
  action fl = "delete" /\
  exists key files,
    (key, files) ∈ group_list choice (candidates w fl searchPath) /\
    p ∈ tl files.
Proof.
  rewrite plan_spec. cbn [snd].
  destruct (String.eqb (action fl) "delete") eqn:Hact.
  - apply String.eqb_eq in Hact. rewrite elem_of_flat_map. split.
    + intros ([key files] & ? & ?). eauto.
    + intros (_ & key & files & ? & ?). by exists (key, files).
  - apply String.eqb_neq in Hact. split; [by intros ?%elem_of_nil|].
    by intros [? _].
Qed.

Lemma run_removals choice fl args w p :
  p ∈ (removals (run_events (runDedupe choice fl args w))).*1 ->
  p ∈ (plan choice fl (search_path args) w).2.
Proof.
  destruct (decide (outputFormat fl = "json")) as [Hfmt|Hfmt].
  { rewrite (runDedupe_json _ _ _ _ Hfmt).
    destruct (plan _ _ _ _). by intros ?%elem_of_nil. }
  rewrite (runDedupe_plain _ _ _ _ Hfmt).
  destruct (plan _ _ _ _) as [ds td]. cbn [snd].
  destruct (removal_phase fl td w) as [evs w'] eqn:Hphase. cbn [run_events].
  rewrite !removals_app, removals_print_groups. cbn [app].
  rewrite app_nil_r.
  destruct (dryRun fl) eqn:Hdry.
  { destruct (removal_phase_dry fl td w Hdry) as [_ Hr].
    rewrite Hphase in Hr. simpl in Hr. rewrite Hr. by intros ?%elem_of_nil. }
  destruct (decide (action fl = "delete")) as [Hact|Hact].
  - destruct (removal_phase_apply fl td w Hact Hdry) as [Hr _].
    rewrite Hphase in Hr. simpl in Hr. by rewrite Hr, attempts_paths.
  - rewrite (removal_phase_list _ _ _ Hact) in Hphase.
    injection Hphase as <- <-. by intros ?%elem_of_nil.
Qed.

(** C7: when the walk is over, a key with fewer than two paths makes no
    group, every group has two members or more, no two groups have the same
    key, and a file that is alone under its key is in no group, neither as
    the kept file nor as a duplicate.  The tree is any tree a file system
    can hold ([listing_ok]); [plan] is the pair of [duplicates] and
    [toDelete] that the run reports ([runDedupe_json], [runDedupe_plain]),
    for any order in which [range] visits [fileMap]. *)
Theorem singletons_make_no_group choice fl args w :
  listing_ok (tree w) = true ->
  let cs := candidates w fl (search_path args) in
  let ds := (plan choice fl (search_path args) w).1 in
  (forall key, (length (paths_with key cs) < 2)%nat ->
     forall d, d ∈ ds -> d !! "key" <> Some (VString key)) /\
  (forall d, d ∈ ds ->
     exists key keep dups,
       d = duplicate_entry key (keep :: dups) /\
       keep :: dups = paths_with key cs /\
       (2 <= length (keep :: dups))%nat) /\
  NoDup (map (fun d : gmap string value => d !! "key") ds) /\
  (forall key path, (key, path) ∈ cs -> paths_with key cs = [path] ->
     forall d, d ∈ ds ->
       d !! "keep" <> Some (VString path) /\
       path ∉ as_strings (d !! "duplicates")).
Proof.
  intros Hwf%listing_ok_wf cs ds. split_and!.
  - intros key Hlen d (k & keep & dups & -> & _ & Hfiles & Hne)%plan_groups.
    destruct (duplicate_entry_fields k (keep :: dups)) as (-> & _).
    intros [= ->]. fold cs in Hfiles. rewrite <- Hfiles in Hlen.
    destruct dups; [done|]. simpl in Hlen. lia.
  - intros d (k & keep & dups & -> & _ & Hfiles & Hne)%plan_groups.
    exists k, keep, dups. split_and!; [done|done|].
    destruct dups; [done|]. simpl. lia.
  - subst ds. rewrite plan_spec. cbn [fst].
    rewrite map_map.
    rewrite (map_ext _ (fun kf => Some (VString kf.1)))
      by (intros kf; apply duplicate_entry_fields).
    rewrite <- (map_map fst (fun k => Some (VString k))).
    assert (Inj eq eq (fun k : string => Some (VString k)))
      by (by intros k1 k2 [= ->]).
    apply (NoDup_fmap_2 (fun k => Some (VString k))).
    apply NoDup_group_list_keys.
  - intros key path Hin Hone d
      (k & keep & dups & -> & _ & Hfiles & Hne)%plan_groups.
    fold cs in Hfiles.
    destruct (duplicate_entry_fields k (keep :: dups)) as (_ & -> & -> & _).
    cbn [hd tl as_strings].
    assert (forall q, q ∈ keep :: dups -> q <> path) as Hother.
    { intros q Hq ->. rewrite Hfiles in Hq. apply elem_of_paths_with in Hq.
      assert (k = key) as ->
        by (eapply NoDup_snd_key; [by apply NoDup_candidates|done..]).
      rewrite Hone in Hfiles. by injection Hfiles as -> ->. }
    split.
    + intros [= ->]. by apply (Hother path); [left|].
    + intros Hq. by apply (Hother path); [right|].
Qed.

Lemma singletons_make_no_group_witness :
  let fl := apply_flags "plain" in
  listing_ok (tree sample) = true /\
  let cs := candidates sample fl (search_path ["d"]) in
  let ds := (plan [] fl (search_path ["d"]) sample).1 in
  (forall key, (length (paths_with key cs) < 2)%nat ->
     forall d, d ∈ ds -> d !! "key" <> Some (VString key)) /\
  (forall d, d ∈ ds ->
     exists key keep dups,
       d = duplicate_entry key (keep :: dups) /\
       keep :: dups = paths_with key cs /\
       (2 <= length (keep :: dups))%nat) /\
  NoDup (map (fun d : gmap string value => d !! "key") ds) /\
  (forall key path, (key, path) ∈ cs -> paths_with key cs = [path] ->
     forall d, d ∈ ds ->
       d !! "keep" <> Some (VString path) /\
       path ∉ as_strings (d !! "duplicates")).
Proof.
  intros fl. split; [reflexivity|].
  apply (singletons_make_no_group [] fl ["d"] sample). reflexivity.
Defined.

(** C4: in every group the kept file is the first file the walk found under
    the key, the duplicates are the later files under the key in the order
    the walk found them, the kept file is never among the paths to delete
    nor handed to [os.Remove], and with [--action delete] every duplicate is
    among the paths to delete.  The tree is any tree a file system can hold
    ([listing_ok]). *)
Theorem keep_is_first_found choice fl args w :
  listing_ok (tree w) = true ->
  let cs := candidates w fl (search_path args) in
  let ds := (plan choice fl (search_path args) w).1 in
  let toDelete := (plan choice fl (search_path args) w).2 in
  forall d, d ∈ ds ->
    exists key keep dups pre post,
      d !! "key" = Some (VString key) /\
      d !! "keep" = Some (VString keep) /\
      d !! "duplicates" = Some (VStrings dups) /\
      cs = pre ++ (key, keep) :: post /\
      paths_with key pre = [] /\
      dups = paths_with key post /\
      (keep ∉ toDelete) /\
      (keep ∉ (removals (run_events (runDedupe choice fl args w))).*1) /\
      (action fl = "delete" -> forall p, p ∈ dups -> p ∈ toDelete).
Proof.
  intros Hwf%listing_ok_wf cs ds toDelete d
    (key & keep & dups & -> & Hgroup & Hfiles & Hne)%plan_groups.
  fold cs in Hfiles, Hgroup.
  destruct (paths_with_first key cs keep dups) as (pre & post & Hcs & Hpre & Hpost);
    [done|].
  exists key, keep, dups, pre, post.
  destruct (duplicate_entry_fields key (keep :: dups)) as (-> & -> & -> & _).
  assert (NoDup cs.*2) as Hnd by by apply NoDup_candidates.
  assert (keep ∉ toDelete) as Hkeep.
  { intros (_ & k & files & [Hk _]%elem_of_group_list & Hin)%plan_toDelete.
    fold cs in Hk.
    assert (k = key) as ->.
    { apply (NoDup_snd_key cs _ _ keep Hnd); apply elem_of_paths_with.
      - rewrite <- Hk. destruct files; [by apply elem_of_nil in Hin|by right].
      - rewrite <- Hfiles. left. }
    rewrite Hk, <- Hfiles in Hin. cbn [tl] in Hin.
    assert (NoDup (keep :: dups)) as [Hn _]%NoDup_cons; [|done].
    rewrite Hfiles. eapply sublist_NoDup; [exact Hnd|apply paths_with_sublist]. }
  split_and!; try done.
  - intros Hin%run_removals. done.
  - intros Hact p Hp. apply plan_toDelete. split; [done|].
    by exists key, (keep :: dups).
Qed.

Lemma keep_is_first_found_witness :
  let fl := apply_flags "plain" in
  listing_ok (tree sample_deep) = true /\
  let cs := candidates sample_deep fl (search_path ["d"]) in
  let ds := (plan [] fl (search_path ["d"]) sample_deep).1 in
  let toDelete := (plan [] fl (search_path ["d"]) sample_deep).2 in
  forall d, d ∈ ds ->
    exists key keep dups pre post,
      d !! "key" = Some (VString key) /\
      d !! "keep" = Some (VString keep) /\
      d !! "duplicates" = Some (VStrings dups) /\
      cs = pre ++ (key, keep) :: post /\
      paths_with key pre = [] /\
      dups = paths_with key post /\
      (keep ∉ toDelete) /\
      (keep ∉ (removals (run_events (runDedupe [] fl ["d"] sample_deep))).*1) /\
      (action fl = "delete" -> forall p, p ∈ dups -> p ∈ toDelete).
Proof.
  intros fl. split; [reflexivity|].
  apply (keep_is_first_found [] fl ["d"] sample_deep). reflexivity.
Defined.

(** ** Apply mode *)

(** Under the plain format, [--action delete] without [--dry-run] hands
    every path to delete to [os.Remove], group after group and member after
    member; a failure is printed and the loop goes on. *)
Lemma plain_apply_attempts_all choice fl args w :
  outputFormat fl <> "json" -> action fl = "delete" -> dryRun fl = false ->
  let toDelete :=
    flat_map (fun kf => tl kf.2)
      (group_list choice (candidates w fl (search_path args))) in
  removals (run_events (runDedupe choice fl args w)) =
    (attempts toDelete w).1 /\
  (attempts toDelete w).1.*1 = toDelete /\
  run_world (runDedupe choice fl args w) = (attempts toDelete w).2.
Proof.
  intros Hfmt Hact Hdry toDelete.
  rewrite (runDedupe_plain _ _ _ _ Hfmt), plan_spec. cbv zeta.
  rewrite Hact. cbn [String.eqb Ascii.eqb Bool.eqb]. fold toDelete.
  destruct (removal_phase_apply fl toDelete w Hact Hdry) as [Hr Hw].
  destruct (removal_phase fl toDelete w) as [evs w']. cbn [run_events run_world].
  rewrite !removals_app, removals_print_groups. simpl in *.
  by rewrite app_nil_r, attempts_paths.
Qed.

Example plain_apply_goes_on_after_failure :
  removals (run_events (runDedupe [] (apply_flags "plain") ["d"] sample_deep))
  = [("d/b.txt", Some EACCES); ("d/c.txt", None)].
Proof. vm_compute. reflexivity. Qed.

(** C1 under the JSON format: with [--action delete] and without
    [--dry-run] the run counts one path to delete, reports [dry_run] false
    and calls [os.Remove] on nothing; the duplicate is still there. *)
Theorem json_apply_removes_nothing :
  let fl := apply_flags "json" in
  let r := runDedupe [] fl ["d"] sample in
  (plan [] fl "d" sample).2 = ["d/b.txt"] /\
  (exists data,
     run_events r =
       [EncodeJSON {| Success := true; Data := Some data; Error := "" |}] /\
     data !! "to_delete" = Some (VInt 1) /\
     data !! "dry_run" = Some (VBool false)) /\
  removals (run_events r) = [] /\
  run_world r = sample /\
  resolve (run_world r) "d/b.txt" = Some (plain_file "X").
Proof.
  intros fl r. split; [vm_compute; reflexivity|]. split.
  - exists (report fl "d" (plan [] fl "d" sample).1 (plan [] fl "d" sample).2).
    split.
    + subst r. rewrite runDedupe_json by reflexivity. cbn [search_path].
      by destruct (plan _ _ _ _).
    + split; [vm_compute; reflexivity|]. by unfold report; simplify_map_eq.
  - subst r. rewrite runDedupe_json by reflexivity.
    destruct (plan _ _ _ _). by vm_compute.
Qed.

(** ** Keys *)

Lemma sum_length msg : length (SHA256.sum msg) = 32%nat.
Proof. unfold SHA256.sum. by destruct (SHA256.blocks _ _ _). Qed.

Lemma hex_length bs : String.length (hex bs) = (2 * length bs)%nat.
Proof. induction bs as [|b bs IH]; [done|]. simpl. rewrite IH. lia. Qed.

Lemma hexdigit_lower d : is_lower_hex (hexdigit d) = true.
Proof.
  unfold hexdigit. generalize (Z.to_nat d). intros n.
  do 16 (destruct n as [|n]; [by vm_compute|]). by destruct n; vm_compute.
Qed.

Lemma hex_lower bs :
  forallb is_lower_hex (list_ascii_of_string (hex bs)) = true.
Proof.
  induction bs as [|b bs IH]; [done|].
  cbn [hex list_ascii_of_string forallb]. by rewrite !hexdigit_lower, IH.
Qed.

Lemma calculateFileHash_ok w path key :
  calculateFileHash w path = inl key ->
  exists f,
    resolve w path = Some (File f) /\
    open_err f = None /\ read_err f = None /\
    key = hex (SHA256.sum (content f)).
Proof.
  unfold calculateFileHash, os_Open, read_all.
  destruct (resolve w path) as [[f|le es|e]|]; try done.
  destruct (open_err f) eqn:Hopen; [done|].
  destruct (read_err f) eqn:Hread; [done|].
  intros [= <-]. by exists f.
Qed.

Lemma calculateFileHash_readable w path f :
  resolve w path = Some (File f) ->
  open_err f = None -> read_err f = None ->
  calculateFileHash w path = inl (hex (SHA256.sum (content f))).
Proof.
  intros Hres Hopen Hread. unfold calculateFileHash, os_Open, read_all.
  by rewrite Hres, Hopen, Hread.
Qed.

Lemma plain_names_subtree p n : forall r t,
  (p, n) ∈ entries_of r t -> plain_names t = true -> plain_names n = true.
Proof.
  intros r t. revert r.
  induction t as [f|le es IH|e] using node_ind'; intros r Hin Hplain.
  - by apply list_elem_of_singleton in Hin as [= -> ->].
  - cbn [entries_of] in Hin. apply elem_of_cons in Hin as [[= -> ->]|Hin];
      [done|].
    apply elem_of_flat_map in Hin as (e & He & Hin).
    rewrite Forall_forall in IH. apply (IH e He _ Hin).
    simpl in Hplain. rewrite forallb_forall in Hplain.
    apply list_elem_of_In, Hplain, andb_prop in He. tauto.
  - by apply list_elem_of_singleton in Hin as [= -> ->].
Qed.

Lemma visit_hash_key w recursive searchPath n : forall path name key p,
  (key, p) ∈ visit w "hash" recursive searchPath path name n ->
  calculateFileHash w p = inl key.
Proof.
  induction n as [f|le es IH|e] using node_ind'; intros path name key p;
    [| |by intros ?%elem_of_nil].
  - simpl. unfold key_of. simpl.
    destruct (calculateFileHash w path) eqn:Hh; [|by intros ?%elem_of_nil].
    by intros [= -> ->]%list_elem_of_singleton.
  - simpl. destruct le; [by intros ?%elem_of_nil|].
    destruct (_ && _); [by intros ?%elem_of_nil|].
    intros (e & He & Hin)%elem_of_flat_map.
    rewrite Forall_forall in IH. by eapply IH.
Qed.

Lemma visit_name_key w by_ recursive searchPath n : forall path name key p,
  by_ <> "hash" -> plain_names n = true -> basename path = name ->
  (key, p) ∈ visit w by_ recursive searchPath path name n ->
  key = basename p.
Proof.
  induction n as [f|le es IH|e] using node_ind';
    intros path name key p Hby Hplain Hbase; [| |by intros ?%elem_of_nil].
  - simpl. unfold key_of. apply String.eqb_neq in Hby as ->.
    by intros [= -> ->]%list_elem_of_singleton.
  - simpl. destruct le; [by intros ?%elem_of_nil|].
    destruct (_ && _); [by intros ?%elem_of_nil|].
    intros (e & He & Hin)%elem_of_flat_map.
    rewrite Forall_forall in IH.
    simpl in Hplain. rewrite forallb_forall in Hplain.
    pose proof He as [Hname Hsub]%list_elem_of_In%Hplain%andb_prop.
    eapply (IH e He); [done|done| |done]. by apply basename_Join.
Qed.

(** [fileMap] after the walk holds a path under a key exactly when the
    pass found the file with that key. *)
Lemma scan_elem_of w fl searchPath key path :
  (exists files,
     (scan w fl searchPath).2 !! key = Some files /\ path ∈ files) <->
  (key, path) ∈ candidates w fl searchPath.
Proof.
  rewrite scan_lookup, <- elem_of_paths_with.
  destruct (paths_with key (candidates w fl searchPath)) as [|p ps]; split.
  - by intros (files & ? & _).
  - by intros ?%elem_of_nil.
  - by intros (files & [= <-] & ?).
  - intros Hin. by exists (p :: ps).
Qed.

Lemma scan_default w fl searchPath key :
  default [] ((scan w fl searchPath).2 !! key) =
  paths_with key (candidates w fl searchPath).
Proof.
  rewrite scan_lookup. by destruct (paths_with key _).
Qed.

Lemma entries_of_head path n : (path, n) ∈ entries_of path n.
Proof. destruct n; left. Qed.

(** An entry of a directory is found at the path the walker gives it. *)
Lemma resolve_child w r le es name c :
  listing_ok (tree w) = true ->
  resolve w r = Some (Dir le es) -> (name, c) ∈ es ->
  resolve w (Join r name) = Some c.
Proof.
  intros Hok Hres Hin. apply assoc_NoDup; [by apply listing_ok_wf|].
  eapply elem_of_sublist;
    [|by apply (entries_of_subtree r (Dir le es)), assoc_elem_of].
  cbn [entries_of]. right. apply elem_of_flat_map.
  exists (name, c). split; [done|]. apply entries_of_head.
Qed.

(** The pass over a directory that can be listed holds each regular file
    of the listing whose key can be computed. *)
Lemma candidates_direct w fl searchPath es name f key :
  resolve w searchPath = Some (Dir None es) ->
  (name, File f) ∈ es ->
  key_of w (by_ fl) (Join searchPath name) name = Some key ->
  (key, Join searchPath name) ∈ candidates w fl searchPath.
Proof.
  intros Hres Hin Hkey. unfold candidates. rewrite Hres. cbn [visit].
  rewrite String.eqb_refl, andb_false_r.
  apply elem_of_flat_map. exists (name, File f). split; [done|].
  cbn [visit fst snd]. rewrite Hkey. left.
Qed.

(** C6: [calculateFileHash] gives a file that opens and reads to the end
    the hexadecimal text of the SHA-256 of all its content.  In the
    [fileMap] that the walk of [runDedupe] leaves, every path stands under
    its key: under the hash strategy the path is a regular file that opens
    and reads to the end, and the key is that text of its content, 64
    characters among [0-9a-f]; under the name strategy the key is the last
    element of the path, extension and all, the directory stripped.  And
    the walk does store the files: each regular file listed in the search
    directory stands in [fileMap] under that key.  The tree is any tree a
    file system can hold ([listing_ok]). *)
Theorem keys_of_files fl args w :
  listing_ok (tree w) = true ->
  (forall path f,
     resolve w path = Some (File f) ->
     open_err f = None -> read_err f = None ->
     calculateFileHash w path = inl (hex (SHA256.sum (content f)))) /\
  (forall key files path,
     (scan w fl (search_path args)).2 !! key = Some files ->
     path ∈ files ->
     (by_ fl = "hash" ->
        exists f,
          resolve w path = Some (File f) /\
          open_err f = None /\ read_err f = None /\
          key = hex (SHA256.sum (content f)) /\
          String.length key = 64%nat /\
          forallb is_lower_hex (list_ascii_of_string key) = true) /\
     (by_ fl <> "hash" -> key = basename path)) /\
  (forall es name f,
     resolve w (search_path args) = Some (Dir None es) ->
     (name, File f) ∈ es ->
     (by_ fl = "hash" -> open_err f = None -> read_err f = None ->
        exists files,
          (scan w fl (search_path args)).2 !! hex (SHA256.sum (content f)) =
            Some files /\
          Join (search_path args) name ∈ files) /\
     (by_ fl <> "hash" ->
        exists files,
          (scan w fl (search_path args)).2 !! name = Some files /\
          Join (search_path args) name ∈ files)).
Proof.
  intros Hok. pose proof (listing_ok_plain_names _ Hok) as Hplain.
  split_and!; [apply calculateFileHash_readable| |].
  - intros key files path Hfiles Hpath.
    assert ((key, path) ∈ candidates w fl (search_path args)) as Hin
      by (apply scan_elem_of; eauto).
    clear Hfiles Hpath files. unfold candidates in Hin.
    destruct (resolve w (search_path args)) as [n|] eqn:Hres;
      [|by apply elem_of_nil in Hin].
    split.
    + intros Hby. rewrite Hby in Hin.
      apply visit_hash_key, calculateFileHash_ok in Hin
        as (f & Hf & Hopen & Hread & ->).
      exists f. split_and!; try done.
      * by rewrite hex_length, sum_length.
      * apply hex_lower.
    + intros Hby. eapply visit_name_key; [done| |reflexivity|done].
      eapply plain_names_subtree; [|done]. by apply assoc_elem_of.
  - intros es name f Hres Hin. split.
    + intros Hby Hopen Hread. apply scan_elem_of.
      eapply candidates_direct; [done..|].
      unfold key_of. rewrite Hby. cbn [String.eqb Ascii.eqb Bool.eqb].
      rewrite (calculateFileHash_readable _ _ f); [done| |done..].
      by eapply resolve_child.
    + intros Hby%String.eqb_neq. apply scan_elem_of.
      eapply candidates_direct; [done..|].
      unfold key_of. by rewrite Hby.
Qed.

Lemma keys_of_files_witness :
  listing_ok (tree sample_deep) = true /\
  (forall path f,
     resolve sample_deep path = Some (File f) ->
     open_err f = None -> read_err f = None ->
     calculateFileHash sample_deep path =
       inl (hex (SHA256.sum (content f)))) /\
  (forall key files path,
     (scan sample_deep (apply_flags "plain") (search_path ["d"])).2 !! key =
       Some files ->
     path ∈ files ->
     (by_ (apply_flags "plain") = "hash" ->
        exists f,
          resolve sample_deep path = Some (File f) /\
          open_err f = None /\ read_err f = None /\
          key = hex (SHA256.sum (content f)) /\
          String.length key = 64%nat /\
          forallb is_lower_hex (list_ascii_of_string key) = true) /\
     (by_ (apply_flags "plain") <> "hash" -> key = basename path)) /\
  (forall es name f,
     resolve sample_deep (search_path ["d"]) = Some (Dir None es) ->
     (name, File f) ∈ es ->
     (by_ (apply_flags "plain") = "hash" ->
      open_err f = None -> read_err f = None ->
        exists files,
          (scan sample_deep (apply_flags "plain") (search_path ["d"])).2
            !! hex (SHA256.sum (content f)) = Some files /\
          Join (search_path ["d"]) name ∈ files) /\
     (by_ (apply_flags "plain") <> "hash" ->
        exists files,
          (scan sample_deep (apply_flags "plain") (search_path ["d"])).2
            !! name = Some files /\
          Join (search_path ["d"]) name ∈ files)).
Proof.
  split; [reflexivity|].
  apply (keys_of_files (apply_flags "plain") ["d"] sample_deep). reflexivity.
Defined.

Example hash_key_of_sample :
  (scan sample (apply_flags "plain") "d").2 !!
    "4b68ab3847feda7d6c62c1fbcbeebfa35eab7351ed5e78f4ddadea5df64b8015" =
    Some ["d/a.txt"; "d/b.txt"] /\
  (scan sample (apply_flags "plain") "d").2 !!
    "18f5384d58bcb1bba0bcd9e6a6781d1a6ac2cc280c330ecbab6cb7931b721552" =
    Some ["d/c.txt"] /\
  size (scan sample (apply_flags "plain") "d").2 = 2%nat.
Proof. vm_compute. done. Qed.

Example name_key_of_sample :
  (scan sample_deep (with_by (apply_flags "plain") "name") "d").2 !!
    "img.jpg" = Some ["d/dir1/img.jpg"; "d/dir2/img.jpg"] /\
  (scan sample_deep (with_by (apply_flags "plain") "name") "d").2 !!
    "a.txt" = Some ["d/a.txt"] /\
  (scan sample_deep (with_by (apply_flags "plain") "name") "d").2 !!
    "u" = Some ["d/dir1/u"] /\
  size (scan sample_deep (with_by (apply_flags "plain") "name") "d").2 =
    5%nat.
Proof. vm_compute. done. Qed.

(** ** Removing a file from the world *)

Lemma assoc_app {A} q (l1 l2 : list (string * A)) :
  assoc q (l1 ++ l2) =
  match assoc q l1 with Some a => Some a | None => assoc q l2 end.
Proof.
  induction l1 as [|[r a] l1 IH]; [done|]. simpl.
  by destruct (String.eqb r q).
Qed.

Lemma entries_of_leaf path n :
  is_leaf n = true -> entries_of path n = [(path, n)].
Proof. by destruct n as [f|le [|e es]|e]. Qed.

Section Unlink.
Variable p : string.

Lemma unlink_leaf path n : is_leaf n = true -> unlink p path n = n.
Proof. by destruct n as [f|le [|e es]|e]. Qed.

Lemma assoc_unlink q t : forall r,
  q <> p ->
  (forall n, (p, n) ∈ entries_of r t -> is_leaf n = true) ->
  assoc q (entries_of r (unlink p r t)) =
  unlink p q <$> assoc q (entries_of r t).
Proof.
  intros r Hq. revert r.
  induction t as [f|le es IH|e] using node_ind'; intros r Hleaf.
  - simpl. by destruct (String.eqb r q).
  - cbn [unlink entries_of assoc].
    destruct (String.eqb r q) eqn:Hr.
    { apply String.eqb_eq in Hr as ->. done. }
    assert (forall e n, e ∈ es -> (p, n) ∈ entries_of (Join r e.1) e.2 ->
              is_leaf n = true) as Hsub.
    { intros e n He Hn. apply Hleaf. cbn [entries_of]. right.
      apply elem_of_flat_map. eauto. }
    clear Hleaf Hr. induction es as [|e es IHes]; [done|].
    apply Forall_cons in IH as [IHe IH].
    specialize (IHes IH).
    assert (forall n, (p, n) ∈ entries_of (Join r e.1) e.2 ->
              is_leaf n = true) as Hhere
      by (intros n; apply Hsub; left).
    assert (assoc q (flat_map (fun e => entries_of (Join r e.1) e.2)
              (flat_map (fun e =>
                 if String.eqb (Join r e.1) p then []
                 else [(e.1, unlink p (Join r e.1) e.2)]) es)) =
            unlink p q <$>
              assoc q (flat_map (fun e => entries_of (Join r e.1) e.2) es))
      as Hrest
      by (apply IHes; intros e' n He'; apply Hsub; by right).
    clear IHes Hsub.
    cbn [flat_map]. rewrite flat_map_app, (assoc_app _ (entries_of _ _)).
    destruct (String.eqb (Join r e.1) p) eqn:Hp.
    + apply String.eqb_eq in Hp. cbn [flat_map app]. rewrite Hrest.
      rewrite Hp in *. rewrite entries_of_leaf by apply Hhere, entries_of_head.
      simpl. apply String.eqb_neq in Hq. by rewrite String.eqb_sym, Hq.
    + cbn [flat_map fst snd]. rewrite app_nil_r, assoc_app.
      rewrite (IHe _ Hhere).
      by destruct (assoc q (entries_of (Join r e.1) e.2)).
  - simpl. by destruct (String.eqb r q).
Qed.

Lemma assoc_unlink_gone t : forall r,
  r <> p -> assoc p (entries_of r (unlink p r t)) = None.
Proof.
  induction t as [f|le es IH|e] using node_ind'; intros r Hr;
    try (simpl; by apply String.eqb_neq in Hr as ->).
  cbn [unlink entries_of assoc].
  apply String.eqb_neq in Hr as ->.
  induction es as [|e es IHes]; [done|].
  apply Forall_cons in IH as [IHe IH].
  cbn [flat_map]. rewrite flat_map_app, assoc_app.
  destruct (String.eqb (Join r e.1) p) eqn:Hp; [by apply IHes|].
  apply String.eqb_neq in Hp.
  cbn [flat_map fst snd]. rewrite app_nil_r, IHe by done. by apply IHes.
Qed.

Lemma unlink_paths t : forall r,
  (entries_of r (unlink p r t)).*1 `sublist_of` (entries_of r t).*1.
Proof.
  induction t as [f|le es IH|e] using node_ind'; intros r; [done| |done].
  cbn [unlink entries_of]. rewrite !fmap_cons. apply sublist_skip.
  induction es as [|e es IHes]; [done|].
  apply Forall_cons in IH as [IHe IH].
  cbn [flat_map]. rewrite flat_map_app, !fmap_app.
  destruct (String.eqb (Join r e.1) p).
  - cbn [flat_map app fmap list_fmap]. by apply sublist_inserts_l, IHes.
  - cbn [flat_map fst snd]. rewrite app_nil_r.
    apply sublist_app; [apply IHe|by apply IHes].
Qed.
End Unlink.

Lemma filter_flat_map {A B} (P : B -> Prop) `{!forall y, Decision (P y)}
    (f : A -> list B) l :
  filter P (flat_map f l) = flat_map (fun x => filter P (f x)) l.
Proof.
  induction l as [|x l IH]; [done|]. simpl. by rewrite filter_app, IH.
Qed.

Section VisitUnlink.
Variables (w w' : world) (by_ : string) (recursive : bool).
Variables (searchPath p : string).
Hypothesis Hkey : forall q name,
  q <> p -> key_of w' by_ q name = key_of w by_ q name.

Lemma visit_leaf_at name n :
  is_leaf n = true ->
  filter (fun kp : string * string => kp.2 <> p)
    (visit w by_ recursive searchPath p name n) = [].
Proof.
  destruct n as [f|[e|] [|e' es]|e]; try done.
  - intros _. simpl. destruct (key_of _ _ _ _); [|done].
    rewrite filter_cons, decide_False; [done|]. by intros Hne; apply Hne.
  - intros _. simpl. by destruct (_ && _).
Qed.

Lemma visit_unlink n : forall path name,
  path <> p ->
  (forall m, (p, m) ∈ entries_of path n -> is_leaf m = true) ->
  visit w' by_ recursive searchPath path name (unlink p path n) =
  filter (fun kp : string * string => kp.2 <> p)
    (visit w by_ recursive searchPath path name n).
Proof.
  induction n as [f|le es IH|e] using node_ind'; intros path name Hpath Hleaf.
  - simpl. rewrite Hkey by done. destruct (key_of _ _ _ _); [|done].
    by rewrite filter_cons, decide_True.
  - cbn [unlink visit]. destruct le; [done|].
    destruct (_ && _); [done|].
    assert (forall e m, e ∈ es -> (p, m) ∈ entries_of (Join path e.1) e.2 ->
              is_leaf m = true) as Hsub.
    { intros e m He Hm. apply Hleaf. cbn [entries_of]. right.
      apply elem_of_flat_map. eauto. }
    clear Hleaf. rewrite filter_flat_map.
    induction es as [|e es IHes]; [done|].
    apply Forall_cons in IH as [IHe IH]. specialize (IHes IH).
    cbn [flat_map]. rewrite flat_map_app.
    rewrite IHes by (intros e' m He'; apply Hsub; by right).
    f_equal. destruct (String.eqb (Join path e.1) p) eqn:Hp.
    + apply String.eqb_eq in Hp. rewrite Hp in *. cbn [flat_map].
      symmetry. apply visit_leaf_at.
      apply (Hsub e); [left|rewrite Hp; apply entries_of_head].
    + apply String.eqb_neq in Hp. cbn [flat_map fst snd].
      rewrite app_nil_r. apply IHe; [done|]. intros m. apply Hsub. left.
  - done.
Qed.
End VisitUnlink.

Lemma resolve_unlink_ne w p q :
  q <> p -> mount w <> p ->
  (forall n, (p, n) ∈ entries_of (mount w) (tree w) -> is_leaf n = true) ->
  resolve (unlink_world w p) q = unlink p q <$> resolve w q.
Proof.
  intros Hq Hm Hleaf. unfold resolve, unlink_world. cbn [mount tree].
  apply String.eqb_neq in Hm as ->. by apply assoc_unlink.
Qed.

Lemma resolve_unlink_eq w p :
  mount w <> p -> resolve (unlink_world w p) p = None.
Proof.
  intros Hm. unfold resolve, unlink_world. cbn [mount tree].
  apply String.eqb_neq in Hm as Hm'. rewrite Hm'.
  by apply assoc_unlink_gone.
Qed.

Lemma os_Open_unlink w p q :
  q <> p -> mount w <> p ->
  (forall n, (p, n) ∈ entries_of (mount w) (tree w) -> is_leaf n = true) ->
  os_Open (unlink_world w p) q = os_Open w q.
Proof.
  intros Hq Hm Hleaf. unfold os_Open, resolve, unlink_world. cbn [mount tree].
  apply String.eqb_neq in Hm as Hm'. rewrite Hm'.
  rewrite assoc_unlink by done.
  by destruct (assoc q _) as [[f|le es|e]|].
Qed.

Lemma key_of_unlink w p by_ q name :
  q <> p -> mount w <> p ->
  (forall n, (p, n) ∈ entries_of (mount w) (tree w) -> is_leaf n = true) ->
  key_of (unlink_world w p) by_ q name = key_of w by_ q name.
Proof.
  intros Hq Hm Hleaf. unfold key_of, calculateFileHash.
  by rewrite os_Open_unlink.
Qed.

(** Without the file at [p], the pass is the pass without [p]. *)
Lemma candidates_unlink w fl searchPath p f :
  wf_world w -> resolve w p = Some (File f) ->
  candidates (unlink_world w p) fl searchPath =
  filter (fun kp : string * string => kp.2 <> p) (candidates w fl searchPath).
Proof.
  intros Hwf Hres.
  assert (forall n, (p, n) ∈ entries_of (mount w) (tree w) ->
            is_leaf n = true) as Hleaf.
  { intros n Hn. apply (assoc_NoDup _ _ _ Hwf) in Hn.
    unfold resolve in Hres. by simplify_eq. }
  unfold candidates.
  destruct (decide (mount w = p)) as [Hm|Hm].
  { (* the world is the one file *)
    assert (tree w = File f) as Htree.
    { unfold resolve in Hres. destruct (tree w) eqn:Ht; simpl in Hres;
        rewrite Hm, String.eqb_refl in Hres; by simplify_eq. }
    unfold resolve, unlink_world. cbn [mount tree].
    rewrite Htree, Hm, String.eqb_refl. simpl.
    destruct (String.eqb p searchPath) eqn:Hsp; [|done].
    apply String.eqb_eq in Hsp as <-. simpl.
    destruct (key_of _ _ _ _); [|done].
    rewrite filter_cons, decide_False; [done|]. by intros Hne; apply Hne. }
  destruct (decide (searchPath = p)) as [->|Hsp].
  { rewrite Hres, resolve_unlink_eq by done. symmetry.
    by apply visit_leaf_at. }
  rewrite resolve_unlink_ne by done.
  destruct (resolve w searchPath) as [n|] eqn:Hn; [|done]. simpl.
  apply visit_unlink; [|done|].
  - intros q name Hq. by apply key_of_unlink.
  - intros m Hm2. apply Hleaf.
    eapply elem_of_sublist; [done|].
    apply entries_of_subtree. by apply assoc_elem_of.
Qed.

Lemma wf_unlink_world w p : wf_world w -> wf_world (unlink_world w p).
Proof.
  unfold wf_world, unlink_world. cbn [mount tree]. intros Hwf.
  destruct (String.eqb (mount w) p).
  - simpl. apply NoDup_singleton.
  - eapply sublist_NoDup; [done|apply unlink_paths].
Qed.

Lemma resolve_unlink_file w p f q n :
  wf_world w -> resolve w p = Some (File f) ->
  (forall n0, resolve w q = Some n0 -> is_dir n0 = false) ->
  resolve (unlink_world w p) q = Some n -> is_dir n = false.
Proof.
  intros Hwf Hres Hq0.
  assert (forall n, (p, n) ∈ entries_of (mount w) (tree w) ->
            is_leaf n = true) as Hleaf.
  { intros m Hm. apply (assoc_NoDup _ _ _ Hwf) in Hm.
    unfold resolve in Hres. by simplify_eq. }
  destruct (decide (mount w = p)) as [Hm|Hm].
  { unfold resolve at 1. unfold unlink_world. cbn [mount tree].
    rewrite Hm, String.eqb_refl. simpl.
    destruct (String.eqb p q); [|done]. by intros [= <-]. }
  destruct (decide (q = p)) as [->|Hq].
  { by rewrite resolve_unlink_eq. }
  rewrite resolve_unlink_ne by done.
  destruct (resolve w q) as [n0|]; [|done]. simpl. intros [= <-].
  specialize (Hq0 n0 eq_refl). by destruct n0.
Qed.

(** ** Running twice *)

Lemma visit_files w by_ recursive searchPath n : forall path name key q,
  (key, q) ∈ visit w by_ recursive searchPath path name n ->
  exists g, (q, File g) ∈ entries_of path n.
Proof.
  induction n as [f|le es IH|e] using node_ind'; intros path name key q;
    [| |by intros ?%elem_of_nil].
  - simpl. destruct (key_of _ _ _ _); [|by intros ?%elem_of_nil].
    intros [= -> ->]%list_elem_of_singleton. exists f. left.
  - simpl. destruct le; [by intros ?%elem_of_nil|].
    destruct (_ && _); [by intros ?%elem_of_nil|].
    intros (e & He & Hin)%elem_of_flat_map.
    rewrite Forall_forall in IH.
    destruct (IH e He _ _ _ _ Hin) as [g Hg]. exists g. right.
    apply elem_of_flat_map. eauto.
Qed.

Lemma candidates_files w fl searchPath key q :
  wf_world w -> (key, q) ∈ candidates w fl searchPath ->
  exists g, resolve w q = Some (File g).
Proof.
  intros Hwf. unfold candidates.
  destruct (resolve w searchPath) as [n|] eqn:Hn; [|by intros ?%elem_of_nil].
  intros [g Hg]%visit_files. exists g. apply assoc_NoDup; [done|].
  eapply elem_of_sublist; [done|].
  apply entries_of_subtree. by apply assoc_elem_of.
Qed.

Lemma filter_not_in_nil {A} (l : list (A * string)) :
  filter (fun kp : A * string => kp.2 ∉ @nil string) l = l.
Proof.
  induction l as [|x l IH]; [done|].
  rewrite filter_cons, decide_True, IH; [done|]. apply not_elem_of_nil.
Qed.

(** When every [os.Remove] of the loop succeeds, the next pass finds what
    the pass before found, less the paths removed. *)
Lemma attempts_all_removed fl searchPath tds : forall w,
  wf_world w ->
  (forall q, q ∈ tds -> forall n, resolve w q = Some n -> is_dir n = false) ->
  Forall (fun x : string * option errno => x.2 = None) (attempts tds w).1 ->
  wf_world (attempts tds w).2 /\
  candidates (attempts tds w).2 fl searchPath =
  filter (fun kp : string * string => kp.2 ∉ tds)
    (candidates w fl searchPath).
Proof.
  induction tds as [|p tds IH]; intros w Hwf Hfiles Hok.
  { cbn [attempts fst snd]. by rewrite filter_not_in_nil. }
  cbn [attempts] in *.
  destruct (os_Remove w p) as [err w1] eqn:Hrm.
  destruct (attempts tds w1) as [outs w2] eqn:Hatt. cbn [fst snd] in *.
  apply Forall_cons in Hok as [Herr Hok]. simpl in Herr. subst err.
  unfold os_Remove in Hrm.
  destruct (resolve w p) as [[f|le es|e]|] eqn:Hp; try done.
  2:{ by specialize (Hfiles p ltac:(left) _ Hp). }
  destruct (remove_err f); [done|]. injection Hrm as <-.
  specialize (IH (unlink_world w p)). rewrite Hatt in IH. cbn [fst snd] in IH.
  destruct IH as [Hwf2 Hcs]; [by apply wf_unlink_world| |done|].
  { intros q Hq n. apply (resolve_unlink_file _ _ _ _ _ Hwf Hp).
    apply Hfiles. by right. }
  split; [done|]. rewrite Hcs, (candidates_unlink _ _ _ _ _ Hwf Hp).
  rewrite list_filter_filter. apply list_filter_iff.
  intros [k q]. cbn [snd]. rewrite not_elem_of_cons. tauto.
Qed.

Lemma paths_with_filter key (Q : string -> Prop) `{!forall q, Decision (Q q)}
    (cs : list (string * string)) :
  paths_with key (filter (fun kp : string * string => Q kp.2) cs) =
  filter Q (paths_with key cs).
Proof.
  unfold paths_with. induction cs as [|[k q] cs IH]; [done|].
  rewrite !filter_cons. cbn [fst snd].
  destruct (decide (Q q)), (decide (k = key)); simpl;
    rewrite ?filter_cons; cbn [fst snd];
    rewrite ?decide_True, ?decide_False by done; simpl; by rewrite ?IH.
Qed.

Lemma filter_all_out {A} (P : A -> Prop) `{!forall x, Decision (P x)} l :
  (forall x, x ∈ l -> ~ P x) -> filter P l = [].
Proof.
  induction l as [|x l IH]; [done|]. intros Hall.
  rewrite filter_cons, decide_False by (apply Hall; left).
  apply IH. intros y Hy. apply Hall. by right.
Qed.

(** Once the duplicates of every group are gone, no key has two paths. *)
Lemma group_list_after choice1 choice2 cs :
  group_list choice2
    (filter (fun kp : string * string =>
               kp.2 ∉ flat_map (fun kf : string * list string => tl kf.2)
                        (group_list choice1 cs)) cs) = [].
Proof.
  set (td := flat_map _ _).
  destruct (group_list choice2 _) as [|[key files] gs] eqn:Hgs; [done|].
  exfalso.
  assert ((key, files) ∈ group_list choice2
            (filter (fun kp : string * string => kp.2 ∉ td) cs)) as Hin
    by (rewrite Hgs; left).
  apply elem_of_group_list in Hin as [-> Hlen].
  pose proof (paths_with_filter key (fun q => q ∉ td) cs) as Hpf.
  cbv beta in Hpf. rewrite Hpf in Hlen. clear Hpf.
  destruct (paths_with key cs) as [|keep dups] eqn:Hfiles; [simpl in Hlen; lia|].
  destruct dups as [|d dups].
  { rewrite filter_cons in Hlen. destruct (decide _); simpl in Hlen; lia. }
  assert (filter (fun q => q ∉ td) (d :: dups) = []) as Hdups.
  { apply filter_all_out. intros q Hq Hnot. apply Hnot.
    apply elem_of_flat_map. exists (key, keep :: d :: dups). split; [|done].
    apply elem_of_group_list. split; [done|]. simpl. lia. }
  rewrite filter_cons, Hdups in Hlen.
  destruct (decide _); simpl in Hlen; lia.
Qed.

(** X4: under the plain format a second apply run, after one whose
    deletions all succeeded, finds no group, calls [os.Remove] on nothing,
    prints only that it found 0 groups and leaves the tree as the first run
    left it. *)
Lemma plain_apply_twice choice1 choice2 fl args w :
  listing_ok (tree w) = true ->
  outputFormat fl <> "json" -> action fl = "delete" -> dryRun fl = false ->
  let r1 := runDedupe choice1 fl args w in
  Forall (fun x : string * option errno => x.2 = None)
    (removals (run_events r1)) ->
  let r2 := runDedupe choice2 fl args (run_world r1) in
  plan choice2 fl (search_path args) (run_world r1) = ([], []) /\
  removals (run_events r2) = [] /\
  run_events r2 = [found_line []] /\
  run_world r2 = run_world r1.
Proof.
  intros Hwf%listing_ok_wf Hfmt Hact Hdry r1 Hok r2.
  destruct (plain_apply_attempts_all choice1 fl args w Hfmt Hact Hdry)
    as (Hrem & _ & Hworld).
  fold r1 in Hrem, Hworld. rewrite Hrem in Hok.
  set (cs := candidates w fl (search_path args)) in *.
  set (td := flat_map _ _) in *.
  destruct (attempts_all_removed fl (search_path args) td w Hwf) as [_ Hcs];
    [|done|].
  { intros q (kf & Hkf & Hq)%elem_of_flat_map n Hn.
    destruct kf as [key files].
    apply elem_of_group_list in Hkf as [-> _]. cbn [snd] in Hq.
    assert (q ∈ paths_with key cs) as Hq'
      by (destruct (paths_with key cs); [by apply elem_of_nil in Hq|by right]).
    apply elem_of_paths_with in Hq'.
    destruct (candidates_files _ _ _ _ _ Hwf Hq') as [g Hg].
    by simplify_eq. }
  rewrite <- Hworld in Hcs.
  assert (plan choice2 fl (search_path args) (run_world r1) = ([], []))
    as Hplan.
  { rewrite plan_spec. cbv zeta. rewrite Hcs. fold cs. unfold td.
    rewrite group_list_after. by destruct (String.eqb _ _). }
  split; [done|]. subst r2.
  rewrite (runDedupe_plain _ _ _ _ Hfmt), Hplan.
  unfold removal_phase. rewrite Hact. simpl. done.
Qed.

(** C8 under the JSON format: the apply run deletes nothing, so all of its
    (zero) deletions succeed, the tree is the one it started from and the
    second apply run finds the group again. *)
Theorem json_apply_twice_finds_the_group :
  let fl := apply_flags "json" in
  let r1 := runDedupe [] fl ["d"] sample in
  let r2 := runDedupe [] fl ["d"] (run_world r1) in
  Forall (fun x : string * option errno => x.2 = None)
    (removals (run_events r1)) /\
  run_world r1 = sample /\
  (plan [] fl "d" (run_world r1)).1 =
    [duplicate_entry
       "4b68ab3847feda7d6c62c1fbcbeebfa35eab7351ed5e78f4ddadea5df64b8015"
       ["d/a.txt"; "d/b.txt"]] /\
  (plan [] fl "d" (run_world r1)).2 = ["d/b.txt"] /\
  run_events r2 = run_events r1.
Proof.
  intros fl r1 r2.
  assert (run_world r1 = sample) as Hw by (by vm_compute).
  assert (removals (run_events r1) = []) as Hr by (by vm_compute).
  subst r2. rewrite Hw, Hr. split_and!; try done; by vm_compute.
Qed.



(** * Further properties of the dedupe command *)

Lemma listing_ok_subtree p n : forall r t,
  (p, n) ∈ entries_of r t -> listing_ok t = true -> listing_ok n = true.
Proof.
  intros r t. revert r.
  induction t as [f|le es IH|e] using node_ind'; intros r Hin Hok.
  - by apply list_elem_of_singleton in Hin as [= -> ->].
  - cbn [entries_of] in Hin. apply elem_of_cons in Hin as [[= -> ->]|Hin];
      [done|].
    apply elem_of_flat_map in Hin as (e & He & Hin).
    rewrite Forall_forall in IH. apply (IH e He _ Hin).
    by apply (listing_ok_entry _ _ _ Hok He).
  - by apply list_elem_of_singleton in Hin as [= -> ->].
Qed.

Lemma resolve_listing_ok w p n :
  listing_ok (tree w) = true -> resolve w p = Some n -> listing_ok n = true.
Proof.
  intros Hok Hres. eapply listing_ok_subtree; [|done].
  by apply assoc_elem_of.
Qed.

Lemma child_path_differs r le es e :
  listing_ok (Dir le es) = true -> e ∈ es -> Join r e.1 <> r.
Proof.
  intros Hok He Heq.
  pose proof (listing_ok_NoDup (Dir le es) r Hok) as Hnd.
  cbn [entries_of] in Hnd. rewrite fmap_cons in Hnd.
  apply NoDup_cons in Hnd as [Hnot _]. apply Hnot.
  apply list_elem_of_fmap. exists (r, e.2). split; [done|].
  apply elem_of_flat_map. exists e. split; [done|].
  rewrite <- Heq at 1. apply entries_of_head.
Qed.

Lemma flat_map_ext_in {A B} (f g : A -> list B) l :
  (forall x, x ∈ l -> f x = g x) -> flat_map f l = flat_map g l.
Proof.
  induction l as [|x l IH]; [done|]. intros Hfg. simpl.
  rewrite Hfg by left. rewrite IH; [done|]. intros y Hy. apply Hfg. by right.
Qed.

Lemma paths_with_app key cs1 cs2 :
  paths_with key (cs1 ++ cs2) = paths_with key cs1 ++ paths_with key cs2.
Proof. unfold paths_with. by rewrite filter_app, map_app. Qed.

Lemma paths_with_flat_map {A} key (f : A -> list (string * string)) l :
  paths_with key (flat_map f l) = flat_map (fun x => paths_with key (f x)) l.
Proof.
  induction l as [|x l IH]; [done|]. simpl. by rewrite paths_with_app, IH.
Qed.

(** Without [--recursive] the pass over a directory is the pass over its
    regular files. *)
Lemma candidates_flat fl searchPath w es :
  listing_ok (tree w) = true ->
  recursive fl = false ->
  resolve w searchPath = Some (Dir None es) ->
  candidates w fl searchPath =
    flat_map (direct_file w (by_ fl) searchPath) es.
Proof.
  intros Hok Hrec Hres.
  pose proof (resolve_listing_ok _ _ _ Hok Hres) as Hdir.
  unfold candidates. rewrite Hres. cbn [visit].
  rewrite String.eqb_refl, andb_false_r. apply flat_map_ext_in.
  intros e He. unfold direct_file.
  destruct e.2 as [f|[err|] es'|err] eqn:He2; try done.
  simpl. rewrite Hrec. simpl.
  pose proof (child_path_differs searchPath _ _ _ Hdir He) as Hne.
  by apply String.eqb_neq in Hne as ->.
Qed.

Lemma paths_with_direct_files w by_ searchPath key es :
  paths_with key (flat_map (direct_file w by_ searchPath) es) =
  map (fun e : string * node => Join searchPath e.1)
    (filter (fun e : string * node =>
               is_file e.2 = true /\
               key_of w by_ (Join searchPath e.1) e.1 = Some key) es).
Proof.
  rewrite paths_with_flat_map.
  induction es as [|e es IH]; [done|].
  cbn [flat_map]. rewrite IH, filter_cons. unfold direct_file at 1.
  destruct e.2 as [f|le es'|err]; cbn [is_file].
  - destruct (key_of w by_ (Join searchPath e.1) e.1) as [k|] eqn:Hk.
    + unfold paths_with. rewrite filter_cons, filter_nil. cbn [fst].
      destruct (decide (k = key)) as [->|Hne].
      * by rewrite decide_True.
      * rewrite decide_False; [done|]. intros [_ ?]. congruence.
    + rewrite decide_False; [done|]. by intros [_ ?].
  - rewrite decide_False; [done|]. by intros [? _].
  - rewrite decide_False; [done|]. by intros [? _].
Qed.

(** X1: without [--recursive] the walk over a directory returns no error
    and leaves in [fileMap], under each key, the regular files listed in
    that directory that have this key, in the order of the listing, and
    nothing else: a subdirectory is skipped with everything below it,
    whatever the strategy. *)
Theorem flat_walk_sees_direct_files fl searchPath w es key :
  listing_ok (tree w) = true ->
  recursive fl = false ->
  resolve w searchPath = Some (Dir None es) ->
  (scan w fl searchPath).1 = None /\
  default [] ((scan w fl searchPath).2 !! key) =
    map (fun e : string * node => Join searchPath e.1)
      (filter (fun e : string * node =>
                 is_file e.2 = true /\
                 key_of w (by_ fl) (Join searchPath e.1) e.1 = Some key) es) /\
  forall files path,
    (scan w fl searchPath).2 !! key = Some files -> path ∈ files ->
    exists name f, (name, File f) ∈ es /\ path = Join searchPath name.
Proof.
  intros Hok Hrec Hres.
  assert (default [] ((scan w fl searchPath).2 !! key) =
    map (fun e : string * node => Join searchPath e.1)
      (filter (fun e : string * node =>
                 is_file e.2 = true /\
                 key_of w (by_ fl) (Join searchPath e.1) e.1 = Some key) es))
    as Heq.
  { rewrite scan_default, (candidates_flat _ _ _ es) by done.
    apply paths_with_direct_files. }
  split_and!; [by rewrite scan_candidates|done|].
  intros files path Hfiles Hpath. rewrite Hfiles in Heq. simpl in Heq.
  rewrite Heq in Hpath.
  apply list_elem_of_fmap in Hpath as ([name c] & -> & Hin).
  apply list_elem_of_filter in Hin as [[Hfile _] Hin].
  destruct c as [f| |]; try done. by exists name, f.
Qed.

Lemma flat_walk_sees_direct_files_witness :
  let fl := {| by_ := "name"; action := "list"; dryRun := false;
               recursive := false; outputFormat := "plain" |} in
  let es := match tree sample_deep with Dir _ es => es | _ => [] end in
  listing_ok (tree sample_deep) = true /\
  recursive fl = false /\
  resolve sample_deep "d" = Some (Dir None es) /\
  (scan sample_deep fl "d").1 = None /\
  default [] ((scan sample_deep fl "d").2 !! "b.txt") =
    map (fun e : string * node => Join "d" e.1)
      (filter (fun e : string * node =>
                 is_file e.2 = true /\
                 key_of sample_deep (by_ fl) (Join "d" e.1) e.1 =
                   Some "b.txt") es) /\
  forall files path,
    (scan sample_deep fl "d").2 !! "b.txt" = Some files -> path ∈ files ->
    exists name f, (name, File f) ∈ es /\ path = Join "d" name.
Proof.
  intros fl es.
  split; [reflexivity|]. split; [reflexivity|]. split; [reflexivity|].
  apply (flat_walk_sees_direct_files fl "d" sample_deep es "b.txt");
    reflexivity.
Defined.

Example flat_walk_of_sample :
  let fileMap :=
    (scan sample_deep
       {| by_ := "name"; action := "list"; dryRun := false;
          recursive := false; outputFormat := "plain" |} "d").2 in
  fileMap !! "a.txt" = Some ["d/a.txt"] /\
  fileMap !! "b.txt" = Some ["d/b.txt"] /\
  fileMap !! "c.txt" = Some ["d/c.txt"] /\
  fileMap !! "img.jpg" = None /\
  size fileMap = 3%nat.
Proof. vm_compute. done. Qed.

(** ** The numbers of the report *)

Lemma length_flat_map_tl (gs : list (string * list string)) :
  Z.of_nat (length (flat_map (fun kf => tl kf.2) gs)) =
  foldr (fun d acc => int_field d "count" + acc) 0
    (map (fun kf => duplicate_entry kf.1 kf.2) gs).
Proof.
  induction gs as [|[key files] gs IH]; [done|].
  cbn [flat_map map foldr fst snd]. rewrite length_app, Nat2Z.inj_add, IH.
  by f_equal.
Qed.

(** X2: in the report of the JSON branch, [path], [method] and [dry_run]
    repeat the search path and the flags, [count] is the number of groups,
    the [count] of a group is the number of its duplicates (one at least),
    and [to_delete] is the sum of these numbers under [--action delete] and
    0 under every other action. *)
Theorem json_report_counts choice fl args w :
  outputFormat fl = "json" ->
  exists data ds,
    run_events (runDedupe choice fl args w) =
      [EncodeJSON {| Success := true; Data := Some data; Error := "" |}] /\
    data !! "path" = Some (VString (search_path args)) /\
    data !! "method" = Some (VString (by_ fl)) /\
    data !! "dry_run" = Some (VBool (dryRun fl)) /\
    data !! "duplicates" = Some (VMaps ds) /\
    data !! "count" = Some (VInt (Z.of_nat (length ds))) /\
    (forall d, d ∈ ds ->
       int_field d "count" =
         Z.of_nat (length (as_strings (d !! "duplicates"))) /\
       1 <= int_field d "count") /\
    data !! "to_delete" =
      Some (VInt (if String.eqb (action fl) "delete"
                  then foldr (fun d acc => int_field d "count" + acc) 0 ds
                  else 0)).
Proof.
  intros Hfmt. rewrite (runDedupe_json _ _ _ _ Hfmt), plan_spec. cbv zeta.
  eexists _, _. split; [reflexivity|].
  unfold report. split_and!; try by simplify_map_eq.
  - intros d ([key files] & -> & Hin)%list_elem_of_fmap.
    apply elem_of_group_list in Hin as [_ Hlen]. cbn [fst snd] in *.
    unfold int_field.
    destruct (duplicate_entry_fields key files) as (_ & _ & -> & ->).
    cbn [as_strings]. split; [done|].
    destruct files as [|keep [|dup dups]]; simpl in *; lia.
  - simplify_map_eq. do 2 f_equal.
    destruct (String.eqb (action fl) "delete"); [|done].
    apply length_flat_map_tl.
Qed.

Lemma json_report_counts_witness :
  outputFormat (apply_flags "json") = "json" /\
  exists data ds,
    run_events (runDedupe [] (apply_flags "json") ["d"] sample_deep) =
      [EncodeJSON {| Success := true; Data := Some data; Error := "" |}] /\
    data !! "path" = Some (VString (search_path ["d"])) /\
    data !! "method" = Some (VString (by_ (apply_flags "json"))) /\
    data !! "dry_run" = Some (VBool (dryRun (apply_flags "json"))) /\
    data !! "duplicates" = Some (VMaps ds) /\
    data !! "count" = Some (VInt (Z.of_nat (length ds))) /\
    (forall d, d ∈ ds ->
       int_field d "count" =
         Z.of_nat (length (as_strings (d !! "duplicates"))) /\
       1 <= int_field d "count") /\
    data !! "to_delete" =
      Some (VInt (if String.eqb (action (apply_flags "json")) "delete"
                  then foldr (fun d acc => int_field d "count" + acc) 0 ds
                  else 0)).
Proof.
  split; [reflexivity|].
  apply (json_report_counts [] (apply_flags "json") ["d"] sample_deep).
  reflexivity.
Defined.

Lemma plain_apply_twice_witness :
  let fl := apply_flags "plain" in
  let r1 := runDedupe [] fl ["d"] sample in
  let r2 := runDedupe [1%nat] fl ["d"] (run_world r1) in
  listing_ok (tree sample) = true /\
  outputFormat fl <> "json" /\ action fl = "delete" /\ dryRun fl = false /\
  Forall (fun x : string * option errno => x.2 = None)
    (removals (run_events r1)) /\
  plan [1%nat] fl (search_path ["d"]) (run_world r1) = ([], []) /\
  removals (run_events r2) = [] /\
  run_events r2 = [found_line []] /\
  run_world r2 = run_world r1.
Proof.
  intros fl r1 r2.
  assert (Forall (fun x : string * option errno => x.2 = None)
            (removals (run_events r1))) as Hok
    by (vm_compute; repeat constructor).
  split; [reflexivity|]. split; [discriminate|]. split; [reflexivity|].
  split; [reflexivity|]. split; [exact Hok|].
  apply (plain_apply_twice [] [1%nat] fl ["d"] sample);
    [reflexivity|discriminate|reflexivity|reflexivity|exact Hok].
Defined.

(** ** What the deletion loop prints *)

Lemma delete_loop_events toDelete : forall w,
  delete_loop false toDelete w =
  (flat_map (fun a : string * option errno =>
               [Remove a.1 a.2; Stdout (outcome_line a.1 a.2)])
     (attempts toDelete w).1,
   (attempts toDelete w).2).
Proof.
  induction toDelete as [|file rest IH]; intros w; [done|].
  cbn [delete_loop attempts negb].
  destruct (os_Remove w file) as [err w1]. rewrite (IH w1).
  destruct (attempts rest w1) as [outs w2]. by destruct err.
Qed.

(** X3: under the plain format, with [--action delete] and without
    [--dry-run], a run with something to delete prints the groups, the
    heading, then for every path to delete, in order, one [os.Remove] call
    on the world the earlier calls left, followed by the line that tells
    its result, and last the number of groups.  A failed call changes only
    its own line. *)
Theorem plain_apply_reports_each_attempt choice fl args w :
  outputFormat fl <> "json" -> action fl = "delete" -> dryRun fl = false ->
  let ds := (plan choice fl (search_path args) w).1 in
  let toDelete := (plan choice fl (search_path args) w).2 in
  toDelete <> [] ->
  run_events (runDedupe choice fl args w) =
    flat_map print_group ds ++
    [Stdout (LF +:+ "Deleting duplicates:" +:+ LF)] ++
    flat_map (fun a : string * option errno =>
                [Remove a.1 a.2; Stdout (outcome_line a.1 a.2)])
      (attempts toDelete w).1 ++
    [found_line ds] /\
  (attempts toDelete w).1.*1 = toDelete /\
  run_world (runDedupe choice fl args w) = (attempts toDelete w).2.
Proof.
  intros Hfmt Hact Hdry ds toDelete Hne.
  rewrite (runDedupe_plain _ _ _ _ Hfmt). subst ds toDelete.
  destruct (plan _ _ _ _) as [ds td]. cbn [fst snd] in *.
  unfold removal_phase. rewrite Hact, Hdry, delete_loop_events.
  destruct td as [|file rest]; [done|].
  cbn [String.eqb Ascii.eqb Bool.eqb andb length Nat.ltb Nat.leb].
  cbn [run_events run_world]. split_and!; [|apply attempts_paths|done].
  done.
Qed.

Lemma plain_apply_reports_each_attempt_witness :
  let fl := apply_flags "plain" in
  let ds := (plan [] fl (search_path ["d"]) sample_deep).1 in
  let toDelete := (plan [] fl (search_path ["d"]) sample_deep).2 in
  outputFormat fl <> "json" /\ action fl = "delete" /\ dryRun fl = false /\
  toDelete <> [] /\
  run_events (runDedupe [] fl ["d"] sample_deep) =
    flat_map print_group ds ++
    [Stdout (LF +:+ "Deleting duplicates:" +:+ LF)] ++
    flat_map (fun a : string * option errno =>
                [Remove a.1 a.2; Stdout (outcome_line a.1 a.2)])
      (attempts toDelete sample_deep).1 ++
    [found_line ds] /\
  (attempts toDelete sample_deep).1.*1 = toDelete /\
  run_world (runDedupe [] fl ["d"] sample_deep) =
    (attempts toDelete sample_deep).2.
Proof.
  intros fl ds toDelete.
  assert (toDelete <> []) as Hne by (vm_compute; discriminate).
  split; [discriminate|]. split; [reflexivity|]. split; [reflexivity|].
  split; [exact Hne|].
  apply (plain_apply_reports_each_attempt [] fl ["d"] sample_deep);
    [discriminate|reflexivity|reflexivity|exact Hne].
Defined.

Example plain_apply_lines_of_sample :
  map (fun a : string * option errno => outcome_line a.1 a.2)
    (attempts ["d/b.txt"; "d/gone"; "d/c.txt"] sample_deep).1 =
  ["  Failed to delete d/b.txt: remove d/b.txt: permission denied" +:+ LF;
   "  Failed to delete d/gone: remove d/gone: no such file or directory"
     +:+ LF;
   "  Deleted: d/c.txt" +:+ LF].
Proof. vm_compute. reflexivity. Qed.

(** ** Runs that remove nothing *)

(** X5: a run with [--output json] calls [os.Remove] on nothing and leaves
    the tree as it is, whatever [--action] and [--dry-run] say; all it does
    is to encode one successful result. *)
Theorem json_run_removes_nothing choice fl args w :
  outputFormat fl = "json" ->
  run_world (runDedupe choice fl args w) = w /\
  removals (run_events (runDedupe choice fl args w)) = [] /\
  exists data,
    run_events (runDedupe choice fl args w) =
      [EncodeJSON {| Success := true; Data := Some data; Error := "" |}].
Proof.
  intros Hfmt. rewrite (runDedupe_json _ _ _ _ Hfmt).
  destruct (plan _ _ _ _) as [ds td]. split_and!; [done|done|by eexists].
Qed.

Lemma json_run_removes_nothing_witness :
  outputFormat (apply_flags "json") = "json" /\
  run_world (runDedupe [] (apply_flags "json") ["d"] sample_deep) =
    sample_deep /\
  removals (run_events (runDedupe [] (apply_flags "json") ["d"] sample_deep))
    = [] /\
  exists data,
    run_events (runDedupe [] (apply_flags "json") ["d"] sample_deep) =
      [EncodeJSON {| Success := true; Data := Some data; Error := "" |}].
Proof.
  split; [reflexivity|].
  apply (json_run_removes_nothing [] (apply_flags "json") ["d"] sample_deep).
  reflexivity.
Defined.

(** X6: every value of [--action] other than "delete" lists: the groups are
    those of "list", no path is put on the list to delete, [os.Remove] is
    called on nothing and the tree stays as it is. *)
Theorem other_action_is_list choice fl args w :
  action fl <> "delete" ->
  (plan choice fl (search_path args) w).1 =
    (plan choice (with_action fl "list") (search_path args) w).1 /\
  (plan choice fl (search_path args) w).2 = [] /\
  removals (run_events (runDedupe choice fl args w)) = [] /\
  run_world (runDedupe choice fl args w) = w.
Proof.
  intros Hact. rewrite !plan_spec. cbv zeta. cbn [fst snd].
  apply String.eqb_neq in Hact as Hact'. rewrite Hact'.
  split_and!; try done; by apply list_action_mutates_nothing.
Qed.

Lemma other_action_is_list_witness :
  let fl := with_action (apply_flags "plain") "remove" in
  action fl <> "delete" /\
  (plan [] fl (search_path ["d"]) sample_deep).1 =
    (plan [] (with_action fl "list") (search_path ["d"]) sample_deep).1 /\
  (plan [] fl (search_path ["d"]) sample_deep).2 = [] /\
  removals (run_events (runDedupe [] fl ["d"] sample_deep)) = [] /\
  run_world (runDedupe [] fl ["d"] sample_deep) = sample_deep.
Proof.
  intros fl. split; [discriminate|].
  apply (other_action_is_list [] fl ["d"] sample_deep). discriminate.
Defined.

(** ** Groups as sets of paths *)

Lemma members_entry key files :
  files <> [] -> members (duplicate_entry key files) = files.
Proof.
  intros Hne. unfold members.
  destruct (duplicate_entry_fields key files) as (_ & -> & -> & _).
  by destruct files.
Qed.

Lemma flat_map_map {A B C} (f : B -> list C) (g : A -> B) l :
  flat_map f (map g l) = flat_map (fun x => f (g x)) l.
Proof. induction l as [|x l IH]; [done|]. simpl. by rewrite IH. Qed.

Lemma plan_members choice fl searchPath w :
  flat_map members (plan choice fl searchPath w).1 =
  flat_map snd (group_list choice (candidates w fl searchPath)).
Proof.
  rewrite plan_spec. cbv zeta. cbn [fst]. rewrite flat_map_map.
  apply flat_map_ext_in. intros [key files] [_ Hlen]%elem_of_group_list.
  cbn [fst snd]. apply members_entry. intros ->. simpl in Hlen. lia.
Qed.

Lemma NoDup_group_paths (cs : list (string * string))
    (gs : list (string * list string)) :
  NoDup cs.*2 -> NoDup gs.*1 ->
  (forall key files, (key, files) ∈ gs -> files = paths_with key cs) ->
  NoDup (flat_map snd gs).
Proof.
  intros Hcs. induction gs as [|[key files] gs IH]; [constructor|].
  rewrite fmap_cons. intros [Hfresh Hkeys]%NoDup_cons Hall.
  assert (files = paths_with key cs) as Hfiles by (apply Hall; left).
  change (flat_map snd ((key, files) :: gs)) with (files ++ flat_map snd gs).
  apply NoDup_app. split_and!.
  - rewrite Hfiles.
    eapply sublist_NoDup; [exact Hcs|apply paths_with_sublist].
  - intros p Hp (kf & Hkf & Hp')%elem_of_flat_map.
    destruct kf as [key' files']. cbn [snd] in Hp'.
    rewrite Hfiles in Hp.
    rewrite (Hall key' files') in Hp' by (by right).
    apply elem_of_paths_with in Hp, Hp'.
    destruct Hfresh. rewrite (NoDup_snd_key cs key key' p Hcs Hp Hp').
    apply list_elem_of_fmap. by exists (key', files').
  - apply IH; [done|]. intros k fs Hin. apply Hall. by right.
Qed.

(** X7: no path is a member of two groups, nor twice a member of one, and
    no path is put twice on the list to delete. *)
Theorem groups_are_disjoint choice fl args w :
  listing_ok (tree w) = true ->
  NoDup (flat_map members (plan choice fl (search_path args) w).1) /\
  NoDup (plan choice fl (search_path args) w).2.
Proof.
  intros Hwf%listing_ok_wf.
  set (cs := candidates w fl (search_path args)).
  assert (NoDup (flat_map snd (group_list choice cs))) as Hnd.
  { apply (NoDup_group_paths cs).
    - by apply NoDup_candidates.
    - apply NoDup_group_list_keys.
    - by intros key files [-> _]%elem_of_group_list. }
  split; [by rewrite plan_members|].
  rewrite plan_spec. cbv zeta. cbn [snd]. fold cs.
  destruct (String.eqb _ _); [|constructor].
  eapply sublist_NoDup; [exact Hnd|].
  apply sublist_flat_map. apply Forall_forall. intros [key files] _.
  cbn [snd]. destruct files; [done|]. by apply sublist_cons.
Qed.

Lemma groups_are_disjoint_witness :
  listing_ok (tree sample_deep) = true /\
  NoDup (flat_map members
           (plan [] (apply_flags "plain") (search_path ["d"]) sample_deep).1) /\
  NoDup (plan [] (apply_flags "plain") (search_path ["d"]) sample_deep).2.
Proof.
  split; [reflexivity|].
  apply (groups_are_disjoint [] (apply_flags "plain") ["d"] sample_deep).
  reflexivity.
Defined.

(** X9: two different files of the pass are members of one group exactly
    when their keys are equal: the same SHA-256 under the hash strategy,
    the same base name under the name strategy. *)
Theorem same_key_same_group choice fl args w key1 path1 key2 path2 :
  listing_ok (tree w) = true ->
  (key1, path1) ∈ candidates w fl (search_path args) ->
  (key2, path2) ∈ candidates w fl (search_path args) ->
  path1 <> path2 ->
  key1 = key2 <->
  exists d, d ∈ (plan choice fl (search_path args) w).1 /\
            path1 ∈ members d /\ path2 ∈ members d.
Proof.
  intros Hwf%listing_ok_wf H1 H2 Hne.
  set (cs := candidates w fl (search_path args)) in *.
  assert (NoDup cs.*2) as Hnd by by apply NoDup_candidates.
  split.
  - intros <-. apply elem_of_paths_with in H1, H2.
    assert (1 < length (paths_with key1 cs))%nat as Hlen.
    { destruct (paths_with key1 cs) as [|p [|q l]]; simpl; try lia.
      - by apply elem_of_nil in H1.
      - apply list_elem_of_singleton in H1, H2. congruence. }
    exists (duplicate_entry key1 (paths_with key1 cs)).
    rewrite members_entry by (intros E; rewrite E in Hlen; simpl in Hlen; lia).
    split; [|done]. rewrite plan_spec. cbv zeta. cbn [fst].
    apply list_elem_of_fmap. exists (key1, paths_with key1 cs).
    split; [done|]. by apply elem_of_group_list.
  - intros (d & (key & keep & dups & -> & _ & Hfiles & _)%plan_groups & Hm1 & Hm2).
    fold cs in Hfiles. rewrite members_entry in Hm1, Hm2 by done.
    rewrite Hfiles in Hm1, Hm2. apply elem_of_paths_with in Hm1, Hm2.
    rewrite (NoDup_snd_key cs key1 key path1 Hnd H1 Hm1).
    by rewrite (NoDup_snd_key cs key2 key path2 Hnd H2 Hm2).
Qed.

Lemma same_key_same_group_witness :
  let fl := with_by (apply_flags "plain") "name" in
  listing_ok (tree sample_deep) = true /\
  ("img.jpg", "d/dir1/img.jpg") ∈ candidates sample_deep fl (search_path ["d"]) /\
  ("img.jpg", "d/dir2/img.jpg") ∈ candidates sample_deep fl (search_path ["d"]) /\
  "d/dir1/img.jpg" <> "d/dir2/img.jpg" /\
  ("img.jpg" = "img.jpg" <->
   exists d, d ∈ (plan [] fl (search_path ["d"]) sample_deep).1 /\
             "d/dir1/img.jpg" ∈ members d /\ "d/dir2/img.jpg" ∈ members d).
Proof.
  intros fl.
  assert (forall x (l : list (string * string)),
            bool_decide (x ∈ l) = true -> x ∈ l) as Hdec
    by (intros x l; apply bool_decide_eq_true).
  split_and!; [reflexivity|by apply Hdec|by apply Hdec|discriminate|].
  apply (same_key_same_group [] fl ["d"] sample_deep);
    [reflexivity|by apply Hdec|by apply Hdec|discriminate].
Defined.

(** X10: the order in which [range] visits [fileMap] changes the order of
    the groups and of the paths to delete and nothing else: two runs on the
    same tree have the same groups and the same paths to delete. *)
Theorem map_order_permutes_groups choice1 choice2 fl searchPath w :
  (plan choice1 fl searchPath w).1 ≡ₚ (plan choice2 fl searchPath w).1 /\
  (plan choice1 fl searchPath w).2 ≡ₚ (plan choice2 fl searchPath w).2 /\
  length (plan choice1 fl searchPath w).1 =
    length (plan choice2 fl searchPath w).1 /\
  length (plan choice1 fl searchPath w).2 =
    length (plan choice2 fl searchPath w).2.
Proof.
  assert (group_list choice1 (candidates w fl searchPath) ≡ₚ
          group_list choice2 (candidates w fl searchPath)) as Hperm.
  { unfold group_list. by rewrite !range_map_perm. }
  rewrite !plan_spec. cbv zeta. cbn [fst snd].
  assert (map (fun kf : string * list string => duplicate_entry kf.1 kf.2)
            (group_list choice1 (candidates w fl searchPath)) ≡ₚ
          map (fun kf : string * list string => duplicate_entry kf.1 kf.2)
            (group_list choice2 (candidates w fl searchPath))) as Hds
    by (by apply Permutation_map).
  assert ((if String.eqb (action fl) "delete"
           then flat_map (fun kf : string * list string => tl kf.2)
                  (group_list choice1 (candidates w fl searchPath))
           else []) ≡ₚ
          (if String.eqb (action fl) "delete"
           then flat_map (fun kf : string * list string => tl kf.2)
                  (group_list choice2 (candidates w fl searchPath))
           else [])) as Htd.
  { destruct (String.eqb _ _); [|done]. by apply Permutation_flat_map. }
  split_and!; [done|done|by apply Permutation_length..].
Qed.

(** ** What a recursive walk sees *)

Lemma fmap_flat_map {A B C} (g : B -> C) (f : A -> list B) l :
  g <$> flat_map f l = flat_map (fun x => g <$> f x) l.
Proof. induction l as [|x l IH]; [done|]. simpl. by rewrite fmap_app, IH. Qed.

Lemma file_paths_dir path le es :
  file_paths path (Dir le es) =
  flat_map (fun e => file_paths (Join path e.1) e.2) es.
Proof.
  unfold file_paths. cbn [entries_of]. rewrite filter_cons.
  cbn [snd is_file]. rewrite decide_False by done.
  by rewrite filter_flat_map, fmap_flat_map.
Qed.

Lemma visit_keyed w by_ searchPath key n : forall path name,
  listable n = true -> plain_names n = true -> basename path = name ->
  paths_with key (visit w by_ true searchPath path name n) =
  filter (fun p => key_of w by_ p (basename p) = Some key)
    (file_paths path n).
Proof.
  induction n as [f|le es IH|e] using node_ind';
    intros path name Hl Hplain Hname.
  - unfold file_paths. cbn [visit entries_of]. rewrite filter_cons.
    cbn [snd is_file]. rewrite decide_True by done.
    rewrite filter_nil. cbn [fmap list_fmap fst]. rewrite filter_cons.
    rewrite Hname.
    destruct (key_of w by_ path name) as [k|]; [|by rewrite decide_False].
    unfold paths_with. rewrite filter_cons, filter_nil. cbn [fst].
    destruct (decide (k = key)) as [->|Hne].
    + by rewrite decide_True.
    + rewrite decide_False; [done|]. congruence.
  - destruct le as [err|]; [done|]. cbn [visit negb andb].
    rewrite file_paths_dir, filter_flat_map, paths_with_flat_map.
    simpl in Hl, Hplain. rewrite forallb_forall in Hl.
    rewrite forallb_forall in Hplain.
    apply flat_map_ext_in. intros e He.
    pose proof He as [Hn Hsub]%list_elem_of_In%Hplain%andb_prop.
    rewrite Forall_forall in IH. apply (IH e He); [|done|].
    + by apply Hl, list_elem_of_In.
    + by apply basename_Join.
  - done.
Qed.

(** X8: with [--recursive], over a tree whose directories can all be
    listed, the walk returns no error and leaves in [fileMap], under each
    key, the regular files at and below the search path that have this
    key, in the order of a depth-first walk of the listings; under the
    name strategy these are the files with that base name, every one of
    them. *)
Theorem recursive_walk_sees_every_file fl searchPath w n key :
  listing_ok (tree w) = true ->
  recursive fl = true ->
  resolve w searchPath = Some n ->
  listable n = true ->
  (scan w fl searchPath).1 = None /\
  default [] ((scan w fl searchPath).2 !! key) =
    filter (fun p => key_of w (by_ fl) p (basename p) = Some key)
      (file_paths searchPath n) /\
  (by_ fl <> "hash" ->
   default [] ((scan w fl searchPath).2 !! key) =
     filter (fun p => basename p = key) (file_paths searchPath n)).
Proof.
  intros Hok Hrec Hres Hl.
  assert (default [] ((scan w fl searchPath).2 !! key) =
    filter (fun p => key_of w (by_ fl) p (basename p) = Some key)
      (file_paths searchPath n)) as Heq.
  { rewrite scan_default. unfold candidates. rewrite Hres, Hrec.
    apply visit_keyed; [done| |done].
    by apply listing_ok_plain_names, (resolve_listing_ok w searchPath). }
  split_and!; [by rewrite scan_candidates|done|].
  intros Hby%String.eqb_neq. rewrite Heq. clear Heq.
  unfold key_of. rewrite Hby.
  induction (file_paths searchPath n) as [|p l IH]; [done|].
  rewrite !filter_cons, IH.
  destruct (decide (basename p = key)) as [->|Hne].
  - by rewrite decide_True.
  - rewrite decide_False; [done|]. congruence.
Qed.

Lemma recursive_walk_sees_every_file_witness :
  let fl := with_by (apply_flags "plain") "name" in
  let n := Dir None [("x", plain_file "1");
                     ("sub", Dir None [("x", unreadable_file "2");
                                       ("deep", Dir None [("x", plain_file "3")])]);
                     ("gone", Broken ENOENT)] in
  let w := {| mount := "."; tree := n |} in
  listing_ok (tree w) = true /\
  recursive fl = true /\
  resolve w "." = Some n /\
  listable n = true /\
  (scan w fl ".").1 = None /\
  default [] ((scan w fl ".").2 !! "x") =
    filter (fun p => key_of w (by_ fl) p (basename p) = Some "x")
      (file_paths "." n) /\
  (by_ fl <> "hash" ->
   default [] ((scan w fl ".").2 !! "x") =
     filter (fun p => basename p = "x") (file_paths "." n)).
Proof.
  intros fl n w.
  split; [reflexivity|]. split; [reflexivity|]. split; [reflexivity|].
  split; [reflexivity|].
  apply (recursive_walk_sees_every_file fl "." w n "x"); reflexivity.
Defined.

Example recursive_walk_of_dot :
  let n := Dir None [("x", plain_file "1");
                     ("sub", Dir None [("x", unreadable_file "2");
                                       ("deep", Dir None [("x", plain_file "3")])]);
                     ("gone", Broken ENOENT)] in
  let w := {| mount := "."; tree := n |} in
  (scan w (with_by (apply_flags "plain") "name") ".").2 !! "x" =
    Some ["x"; "sub/x"; "sub/deep/x"] /\
  size (scan w (with_by (apply_flags "plain") "name") ".").2 = 1%nat /\
  (scan w (apply_flags "plain") ".").2 !!
    "6b86b273ff34fce19d6b804eff5a3f5747ada4eaa22f1d49c01e52ddb7875b4b" =
    Some ["x"] /\
  (scan w (apply_flags "plain") ".").2 !!
    "4e07408562bedb8b60ce05c1decfe3ad16b72230967de01f640b7e4729b49fce" =
    Some ["sub/deep/x"] /\
  size (scan w (apply_flags "plain") ".").2 = 2%nat.
Proof. vm_compute. done. Qed.


(** * Properties of package [errors] *)

Lemma wrap_all_app layers1 layers2 cause :
  Errors.wrap_all (layers1 ++ layers2) cause =
  Errors.wrap_all layers1 (Errors.wrap_all layers2 cause).
Proof.
  induction layers1 as [|[code message] rest IH]; [done|].
  simpl. by rewrite IH.
Qed.

(** X11: the text of an error wrapped any number of times is the messages
    of the layers, from the outermost to the innermost, then the text of
    the error wrapped first, joined by ": "; the codes are no part of it,
    and wrapping nil leaves the messages alone. *)
Theorem wrapped_error_text layers code message cause :
  Errors.Error
    (Errors.Wrap (Errors.wrap_all layers cause) code message) =
  Errors.join_colon
    (message :: layers.*2 ++
     match cause with Some e => [Errors.error_text e] | None => [] end).
Proof.
  unfold Errors.Error, Errors.Wrap. revert code message.
  induction layers as [|[code' message'] rest IH]; intros code message.
  - cbn [Errors.wrap_all fmap list_fmap app]. by destruct cause.
  - cbn [Errors.wrap_all fmap list_fmap app snd Errors.error_text].
    unfold Errors.Wrap. cbn [Errors.join_colon].
    specialize (IH code' message'). cbn [Errors.error_text] in IH.
    fold Errors.error_text in *.
    change (Errors.error_text
              (Errors.DevKit
                 (Errors.MkDevKitError code message
                    (Some (Errors.DevKit
                       (Errors.MkDevKitError code' message'
                          (Errors.wrap_all rest cause)))))))
      with (message +:+ ": " +:+
            Errors.error_text
              (Errors.DevKit
                 (Errors.MkDevKitError code' message'
                    (Errors.wrap_all rest cause)))).
    rewrite IH.
    by destruct (rest.*2 ++ match cause with
                            | Some e => [Errors.error_text e]
                            | None => []
                            end).
Qed.

(** X12: [Unwrap] undoes one [Wrap]: unwrapping an error as many times as
    it was wrapped gives back the error wrapped first (nil for an error
    made by [New]), and an error made by [New] has nothing to unwrap. *)
Theorem unwrap_reaches_the_cause layers cause code message :
  Errors.unwrap_n (length layers) (Errors.wrap_all layers cause) = cause /\
  Errors.Unwrap (Errors.Wrap cause code message) = cause /\
  Errors.Unwrap (Errors.New code message) = None /\
  Errors.Wrap None code message = Errors.New code message.
Proof.
  split_and!; try done.
  induction layers as [|[code' message'] rest IH]; [done|]. apply IH.
Qed.

Example wrapped_text_sample :
  Errors.Error
    (Errors.Wrap
       (Some (Errors.DevKit
                (Errors.Wrap (Some (Errors.Other "open x: permission denied"))
                   "FILE" "cannot read")))
       "RUN" "dedupe failed") =
  "dedupe failed: cannot read: open x: permission denied".
Proof. reflexivity. Qed.
